(** * speak-learn-english: the answer normalizer and the quiz session

    A shallow embedding of the two pieces of logic of the quiz page:

    - [findBestMatch] (src/utils/speechRecognition, printed after
      QuizPage.tsx), which resolves a spoken text to one of the options of
      the current question;
    - the handlers of the [QuizPage] component (src/pages/QuizPage.tsx):
      [fetchQuizData], [handleSpeechResult], [checkAnswer], [nextQuestion],
      [endQuiz], the click handler of the option buttons and the marks the
      render puts on them;
    - what the writes of [endQuiz] do to the [progress] table of the
      migration, the rows its sign-up trigger [handle_new_user] inserts, and
      [getLevelProgress] and [handleLevelClick] of the level selection page
      (src/pages/LevelSelectionPage), which read that table.

    Modelling choices.

    - A string is a sequence of characters with code points U+0000 to
      U+00FF ([String.string], one [ascii] per character); the JavaScript
      built-ins [toLowerCase] and [trim] and the class [\s] are given exactly
      on that alphabet.  Strings with other characters are outside the model.
    - JavaScript numbers that only count (score, mistakes, index) are [nat];
      the level number is a [Z]; similarity scores are rationals ([Q]): the
      package never produces NaN, and the only operations applied to a score
      are the comparisons [>] and [>=].
    - A React function component is re-run at every render, and every
      handler is a closure over the values of the state variables of the
      render that created it.  A handler therefore takes two sessions: the
      render [r] it closes over, which it only reads, and the live session,
      to which its [set...] calls and its effects apply.  A callback given to
      [setTimeout] keeps the render of the handler that scheduled it.
    - Effects (toasts, writes sent to the persistence service, navigation)
      are appended to a log carried by the session.
    - The progress table is a list of rows; an [update] filtered by [eq]
      rewrites the matching rows in place and creates none.  The persistence
      service may reject either write: [endQuiz] tests the error of the
      progress write and discards that of the unlock write.
    - A timer scheduled by a handler fires before the next event is
      delivered.  A recognition result is an event of its own: it runs the
      [onresult] callback installed by the microphone press, in the render of
      that press, whatever has happened since.
    - An uncaught TypeError (reading a field of the undefined current
      question) is the result [None] of a handler.
    - Speech synthesis and the availability of the recognition engine are
      left out: no handler of the session reads them. *)

From Stdlib Require Import Bool Arith List String Ascii ZArith QArith Lia.
Import ListNotations.

Local Open Scope string_scope.
Local Open Scope list_scope.
Local Open Scope nat_scope.

(** ** JavaScript string built-ins used by the normalizer *)

Module JsString.

(** The characters that [toLowerCase] changes: A-Z, and the letters
    U+00C0-U+00DE except the multiplication sign U+00D7. *)
Definition isUpperCase (c : ascii) : bool :=
  let n := nat_of_ascii c in
  ((65 <=? n) && (n <=? 90))
  || ((192 <=? n) && (n <=? 222) && negb (n =? 215)).

Definition lowerChar (c : ascii) : ascii :=
  if isUpperCase c then ascii_of_nat (nat_of_ascii c + 32) else c.

(** [String.prototype.toLowerCase]. *)
Fixpoint toLowerCase (s : string) : string :=
  match s with
  | EmptyString => EmptyString
  | String c rest => String (lowerChar c) (toLowerCase rest)
  end.

(** White space in the sense of [trim] and of the regular expression class
    [\s]: tab, line feed, vertical tab, form feed, carriage return, space and
    the no-break space U+00A0. *)
Definition isWhiteSpace (c : ascii) : bool :=
  let n := nat_of_ascii c in
  ((9 <=? n) && (n <=? 13)) || (n =? 32) || (n =? 160).

Fixpoint trimStart (s : string) : string :=
  match s with
  | EmptyString => EmptyString
  | String c rest => if isWhiteSpace c then trimStart rest else s
  end.

Fixpoint trimEnd (s : string) : string :=
  match s with
  | EmptyString => EmptyString
  | String c rest =>
      match trimEnd rest with
      | EmptyString => if isWhiteSpace c then EmptyString else String c EmptyString
      | rest' => String c rest'
      end
  end.

(** [String.prototype.trim]. *)
Definition trim (s : string) : string := trimEnd (trimStart s).

(** A string is blank when all its characters are white space. *)
Fixpoint isBlank (s : string) : bool :=
  match s with
  | EmptyString => true
  | String c rest => isWhiteSpace c && isBlank rest
  end.

End JsString.

(** Two characters that are the same letter in either case: equal, or one
    the capital of the other (32 code points below it). *)
Definition capitalOf (C c : ascii) : bool :=
  JsString.isUpperCase C && (nat_of_ascii c =? nat_of_ascii C + 32).

Definition sameLetter (c c' : ascii) : bool :=
  Ascii.eqb c c' || capitalOf c c' || capitalOf c' c.

(** Two texts that differ in the case of their letters only. *)
Fixpoint sameLetters (s s' : string) : bool :=
  match s, s' with
  | EmptyString, EmptyString => true
  | String c rest, String c' rest' => sameLetter c c' && sameLetters rest rest'
  | _, _ => false
  end.

(** ** The similarity primitive of the [string-similarity] package *)

Module StringSimilarity.

Definition bigram : Type := (ascii * ascii)%type.

Definition bigram_eqb (x y : bigram) : bool :=
  Ascii.eqb (fst x) (fst y) && Ascii.eqb (snd x) (snd y).

(** [s.replace(/\s+/g, '')] *)
Fixpoint removeWhiteSpace (s : string) : string :=
  match s with
  | EmptyString => EmptyString
  | String c rest =>
      if JsString.isWhiteSpace c then removeWhiteSpace rest
      else String c (removeWhiteSpace rest)
  end.

(** The substrings [s.substring(i, i + 2)] for [i < s.length - 1], in order. *)
Fixpoint bigrams (s : string) : list bigram :=
  match s with
  | String a (String b _ as rest) => (a, b) :: bigrams rest
  | _ => []
  end.

(** The [Map] from bigram to count, as an association list. *)
Definition BigramMap : Type := list (bigram * nat).

Fixpoint get (m : BigramMap) (k : bigram) : option nat :=
  match m with
  | [] => None
  | (k', v) :: m' => if bigram_eqb k k' then Some v else get m' k
  end.

Fixpoint set (m : BigramMap) (k : bigram) (v : nat) : BigramMap :=
  match m with
  | [] => [(k, v)]
  | (k', v') :: m' =>
      if bigram_eqb k k' then (k', v) :: m' else (k', v') :: set m' k v
  end.

Definition countBigrams (bs : list bigram) : BigramMap :=
  fold_left
    (fun firstBigrams b =>
       let count := match get firstBigrams b with
                    | Some c => c + 1
                    | None => 1
                    end in
       set firstBigrams b count)
    bs [].

Definition intersection (firstBigrams : BigramMap) (bs : list bigram)
  : BigramMap * nat :=
  fold_left
    (fun (acc : BigramMap * nat) b =>
       let (m, intersectionSize) := acc in
       let count := match get m b with Some c => c | None => 0 end in
       if 0 <? count then (set m b (count - 1), intersectionSize + 1)
       else acc)
    bs (firstBigrams, 0).

(** Modelled from the spec: [compareTwoStrings] belongs to the npm package
    [string-similarity], which QuizPage's utility imports and whose source is
    not part of the repository.  The spec calls it a bidirectional
    bigram-overlap coefficient with range [0,1]; this is the Dice coefficient
    on bigrams as that package computes it: white space is removed, equal
    strings (two empty strings included) score 1, a string shorter than two
    characters otherwise scores 0, and in general the score is twice the
    number of shared bigrams over the total number of bigrams. *)
Definition compareTwoStrings (first second : string) : Q :=
  let first := removeWhiteSpace first in
  let second := removeWhiteSpace second in
  if String.eqb first second then 1%Q
  else if (String.length first <? 2) || (String.length second <? 2) then 0%Q
  else
    let firstBigrams := countBigrams (bigrams first) in
    let intersectionSize := snd (intersection firstBigrams (bigrams second)) in
    Qmake (Z.of_nat (2 * intersectionSize))
          (Pos.of_nat (String.length first + String.length second - 2)).

End StringSimilarity.

(** ** findBestMatch *)

(** The value [{ match, score }] returned on success. *)
Record MatchResult : Type := mkMatchResult {
  matched : string;
  matchScore : Q
}.

(** The local [bestMatch = { text, score }]. *)
Record BestMatch : Type := mkBestMatch {
  text : string;
  bestScore : Q
}.

Definition Qgtb (x y : Q) : bool := negb (Qle_bool x y).

Definition threshold : Q := 0.7%Q.

Section SpeechRecognition.

(** The imported similarity function; the normalizer's selection logic does
    not depend on how it scores. *)
Variable compareTwoStrings : string -> string -> Q.

Definition normalize (s : string) : string :=
  JsString.trim (JsString.toLowerCase s).

(** The score of an option against a spoken text. *)
Definition similarity (spokenText opt : string) : Q :=
  compareTwoStrings (normalize spokenText) (normalize opt).

(** One iteration of [for (const option of options)]. *)
Definition considerOption (normalizedSpoken : string)
  (bestMatch : BestMatch) (opt : string) : BestMatch :=
  let normalizedOption := normalize opt in
  let similarity := compareTwoStrings normalizedSpoken normalizedOption in
  if Qgtb similarity (bestScore bestMatch)
  then {| text := opt; bestScore := similarity |}
  else bestMatch.

Definition findBestMatch (spokenText : string) (options : list string)
  : option MatchResult :=
  let normalizedSpoken := normalize spokenText in
  let bestMatch :=
    fold_left (considerOption normalizedSpoken) options
              {| text := ""; bestScore := 0%Q |} in
  if Qle_bool threshold (bestScore bestMatch)
  then Some {| matched := text bestMatch; matchScore := bestScore bestMatch |}
  else None.

End SpeechRecognition.

(** ** Data model of the quiz page *)

Record Question : Type := mkQuestion {
  question_id : string;
  question_text : string;
  image_url : string;
  options : list string;
  correct_answer : string
}.

Record Level : Type := mkLevel {
  level_id : string;
  level_number : Z;
  title : string;
  level_image_url : string
}.

(** The values of the [status] column of the [progress] table. *)
Inductive Status : Type := locked | unlocked | completed.

Inductive Toast : Type :=
| ToastCorrect                          (* toast.success('Correct! ...') *)
| ToastIncorrect                        (* toast.error('Incorrect!') *)
| ToastThreeMistakes                    (* 'You made 3 mistakes. Quiz ended.' *)
| ToastTryAgain                         (* toast.success('Try again!') *)
| ToastLevelCompleted (finalScore total : nat)
                                        (* 'Level completed! Score: s/n' *)
| ToastError (message : string).        (* toast.error(error.message) *)

(** What a handler sends to its collaborators. *)
Inductive Effect : Type :=
| ShowToast (t : Toast)
| ProgressUpdate (user : string) (level : Z) (status : Status)
                 (high_score : nat)
      (* progress.update({status, high_score}).eq(user_id).eq(level_number) *)
| UnlockUpdate (user : string) (level : Z)
      (* progress.update({status: 'unlocked'}).eq(user_id).eq(level_number) *)
| NavigateAfter (path : string) (delay : nat)
      (* setTimeout(() => navigate(path), delay) *)
| Navigate (path : string).

Inductive Feedback : Type :=
| NoFeedback                            (* '' *)
| Listening
| YouSaid (spokenText : string)
| UnrecognizedAnswer
| CouldNotRecognize.

(** The state variables of the component ([useState], lines 33-42). *)
Record State : Type := mkState {
  level : option Level;
  questions : list Question;
  currentQuestionIndex : nat;
  score : nat;
  mistakes : nat;
  selectedOption : option string;
  isCorrect : option bool;
  feedbackText : Feedback;
  loading : bool
}.

(** The page: the live state, the effects emitted so far and, while the
    recognition engine is listening ([isListening]), the render over which
    the [onresult] callback installed by [startListening] closes. *)
Record Session : Type := mkSession {
  ui : State;
  log : list Effect;
  listening : option State
}.

(** The answer of the persistence service to a request: [{ data, error }]. *)
Inductive Response (A : Type) : Type :=
| Data (data : A)
| Failure (message : string).

Arguments Data {A} data.
Arguments Failure {A} message.

(** A pending [setTimeout]: the callback and the render it closes over. *)
Inductive Callback : Type :=
| CallNextQuestion
| CallEndQuiz (failedDueToMistakes : bool).

Record Timer : Type := mkTimer {
  callback : Callback;
  closure : State;
  delay : nat
}.

(** The events of the page that reach the session. *)
Inductive Event : Type :=
| Click (opt : string)          (* a click on an option button *)
| Speech (spokenText : string)  (* the microphone pressed and its result
                                   delivered before anything else happens *)
| MicPress                      (* the microphone button pressed *)
| Result (spokenText : string)  (* the engine delivers a result *)
| RecognitionError              (* the engine reports an error *)
| RecognitionEnd.               (* the engine stops listening *)

Inductive Outcome : Type := Completed | FailedByMistakes.

(** *** State setters *)

Definition setLevel (v : Level) (s : Session) : Session :=
  let st := ui s in
  {| ui := mkState (Some v) (questions st) (currentQuestionIndex st)
             (score st) (mistakes st) (selectedOption st) (isCorrect st)
             (feedbackText st) (loading st);
     log := log s;
     listening := listening s |}.

Definition setQuestions (v : list Question) (s : Session) : Session :=
  let st := ui s in
  {| ui := mkState (level st) v (currentQuestionIndex st)
             (score st) (mistakes st) (selectedOption st) (isCorrect st)
             (feedbackText st) (loading st);
     log := log s;
     listening := listening s |}.

Definition setCurrentQuestionIndex (v : nat) (s : Session) : Session :=
  let st := ui s in
  {| ui := mkState (level st) (questions st) v
             (score st) (mistakes st) (selectedOption st) (isCorrect st)
             (feedbackText st) (loading st);
     log := log s;
     listening := listening s |}.

Definition setScore (v : nat) (s : Session) : Session :=
  let st := ui s in
  {| ui := mkState (level st) (questions st) (currentQuestionIndex st)
             v (mistakes st) (selectedOption st) (isCorrect st)
             (feedbackText st) (loading st);
     log := log s;
     listening := listening s |}.

Definition setMistakes (v : nat) (s : Session) : Session :=
  let st := ui s in
  {| ui := mkState (level st) (questions st) (currentQuestionIndex st)
             (score st) v (selectedOption st) (isCorrect st)
             (feedbackText st) (loading st);
     log := log s;
     listening := listening s |}.

Definition setSelectedOption (v : option string) (s : Session) : Session :=
  let st := ui s in
  {| ui := mkState (level st) (questions st) (currentQuestionIndex st)
             (score st) (mistakes st) v (isCorrect st)
             (feedbackText st) (loading st);
     log := log s;
     listening := listening s |}.

Definition setIsCorrect (v : option bool) (s : Session) : Session :=
  let st := ui s in
  {| ui := mkState (level st) (questions st) (currentQuestionIndex st)
             (score st) (mistakes st) (selectedOption st) v
             (feedbackText st) (loading st);
     log := log s;
     listening := listening s |}.

Definition setFeedbackText (v : Feedback) (s : Session) : Session :=
  let st := ui s in
  {| ui := mkState (level st) (questions st) (currentQuestionIndex st)
             (score st) (mistakes st) (selectedOption st) (isCorrect st)
             v (loading st);
     log := log s;
     listening := listening s |}.

Definition setLoading (v : bool) (s : Session) : Session :=
  let st := ui s in
  {| ui := mkState (level st) (questions st) (currentQuestionIndex st)
             (score st) (mistakes st) (selectedOption st) (isCorrect st)
             (feedbackText st) v;
     log := log s;
     listening := listening s |}.

Definition emit (e : Effect) (s : Session) : Session :=
  {| ui := ui s; log := log s ++ [e]; listening := listening s |}.

Definition toast (t : Toast) (s : Session) : Session := emit (ShowToast t) s.

(** *** Reading a session *)

(** [questions[currentQuestionIndex]], which is [undefined] out of range. *)
Definition currentQuestion (st : State) : option Question :=
  nth_error (questions st) (currentQuestionIndex st).

Definition progressUpdates (l : list Effect)
  : list (string * Z * Status * nat) :=
  flat_map (fun e => match e with
                     | ProgressUpdate u n st sc => [(u, n, st, sc)]
                     | _ => []
                     end) l.

Definition unlockUpdates (l : list Effect) : list (string * Z) :=
  flat_map (fun e => match e with
                     | UnlockUpdate u n => [(u, n)]
                     | _ => []
                     end) l.

Definition outcomeOfStatus (st : Status) : Outcome :=
  match st with
  | completed => Completed
  | _ => FailedByMistakes
  end.

Definition statusOfOutcome (o : Outcome) : Status :=
  match o with
  | Completed => completed
  | FailedByMistakes => unlocked
  end.

(** The component keeps no terminal flag.  A session is terminal once
    [endQuiz] has run, which shows as the progress write it sends first; the
    outcome is what that write records. *)
Definition outcome (s : Session) : option (Outcome * nat) :=
  match progressUpdates (log s) with
  | [] => None
  | (_, _, st, sc) :: _ => Some (outcomeOfStatus st, sc)
  end.

Definition isTerminal (s : Session) : bool :=
  match outcome s with Some _ => true | None => false end.

(** The mistake limit tested by [checkAnswer]. *)
Definition mistakeLimit : nat := 3.

(** A string that does not begin with white space. *)
Definition startsClean (s : string) : bool :=
  match s with
  | EmptyString => true
  | String c _ => negb (JsString.isWhiteSpace c)
  end.

(** ** The option buttons *)





(** ** The progress table, the sign-up trigger and the level selection page *)

(** A row of [public.progress] (migration, lines 45-55), without its
    identifier and its time stamps. *)
Record ProgressRow : Type := mkProgressRow {
  row_user_id : string;
  row_level_number : Z;
  row_status : Status;
  row_high_score : nat
}.

Definition ProgressTable : Type := list ProgressRow.

(** [.eq('user_id', u).eq('level_number', n)] *)
Definition rowMatches (u : string) (n : Z) (r : ProgressRow) : bool :=
  String.eqb (row_user_id r) u && Z.eqb (row_level_number r) n.

(** [update({ status, high_score })] on the rows selected by the two
    [eq] filters: the matching rows are rewritten, no row is added. *)
Definition updateProgress (u : string) (n : Z) (st : Status) (sc : nat)
  (t : ProgressTable) : ProgressTable :=
  map (fun r => if rowMatches u n r
                then mkProgressRow (row_user_id r) (row_level_number r) st sc
                else r) t.

(** [update({ status })] on the rows selected by the two [eq] filters. *)
Definition updateStatus (u : string) (n : Z) (st : Status)
  (t : ProgressTable) : ProgressTable :=
  map (fun r => if rowMatches u n r
                then mkProgressRow (row_user_id r) (row_level_number r) st
                       (row_high_score r)
                else r) t.

(** [ORDER BY level_number], as an insertion sort. *)
Fixpoint insertLevel (l : Level) (ls : list Level) : list Level :=
  match ls with
  | [] => [l]
  | l' :: ls' =>
      if (level_number l <=? level_number l')%Z then l :: l' :: ls'
      else l' :: insertLevel l ls'
  end.

Fixpoint orderByLevelNumber (ls : list Level) : list Level :=
  match ls with
  | [] => []
  | l :: ls' => insertLevel l (orderByLevelNumber ls')
  end.

(** The progress rows that [handle_new_user] inserts for the new user
    (migration, lines 74-78): one row per level, level 1 unlocked and the
    others locked, [high_score] at its default 0. *)
Definition handle_new_user (new_id : string) (levels : list Level)
  (t : ProgressTable) : ProgressTable :=
  t ++ map (fun l => mkProgressRow new_id (level_number l)
                       (if (level_number l =? 1)%Z then unlocked else locked)
                       0)
           (orderByLevelNumber levels).

(** [from('progress').select('*').eq('user_id', user.id)] of [fetchData]
    (LevelSelectionPage, line 144). *)
Definition selectProgress (u : string) (t : ProgressTable)
  : list ProgressRow :=
  filter (fun r => String.eqb (row_user_id r) u) t.

(** [getLevelProgress] (LevelSelectionPage, lines 159-161). *)
Definition getLevelProgress (progress : list ProgressRow) (levelNumber : Z)
  : option ProgressRow :=
  find (fun p => Z.eqb (row_level_number p) levelNumber) progress.

(** What a click on a level card does. *)
Inductive LevelAction : Type :=
| ShowLockedToast         (* 'Complete previous levels to unlock this one!' *)
| OpenQuiz (levelNumber : Z).               (* navigate(`/quiz/${n}`) *)

(** [handleLevelClick] (LevelSelectionPage, lines 163-172);
    [levelProgress?.status === 'locked'] is false when there is no row. *)
Definition handleLevelClick (progress : list ProgressRow) (lvl : Level)
  : LevelAction :=
  match getLevelProgress progress (level_number lvl) with
  | Some levelProgress =>
      match row_status levelProgress with
      | locked => ShowLockedToast
      | _ => OpenQuiz (level_number lvl)
      end
  | None => OpenQuiz (level_number lvl)
  end.

(** ** Sample data *)

Module Sample.

Definition menu : Question :=
  mkQuestion "q1" "What do you ask for to see the dishes?" "menu.png"
    ["Menu"; "Bill"; "Receipt"; "Order"] "Menu".

Definition bill : Question :=
  mkQuestion "q2" "What do you ask for when you want to pay?" "bill.png"
    ["Menu"; "Bill"; "Receipt"; "Order"] "Bill".

Definition water : Question :=
  mkQuestion "q3" "What do you drink?" "water.png"
    ["Water"; "Bread"; "Salt"; "Fork"] "Water".

Definition fork : Question :=
  mkQuestion "q4" "What do you eat with?" "fork.png"
    ["Plate"; "Fork"; "Glass"; "Napkin"] "Fork".

Definition waiter : Question :=
  mkQuestion "q5" "Who brings the food?" "waiter.png"
    ["Waiter"; "Cook"; "Guest"; "Driver"] "Waiter".

(** A question as the level editor creates it, with two of its four option
    fields left empty. *)
Definition halfFilled : Question :=
  mkQuestion "q6" "Yes or no?" "yesno.png" ["Yes"; "No"; ""; ""] "Yes".

Definition restaurant : Level := mkLevel "l1" 1 "Restaurant" "restaurant.png".

Definition oneQuestion : list Question := [menu].
Definition threeQuestions : list Question := [menu; bill; water].
Definition fiveQuestions : list Question := [menu; bill; water; fork; waiter].

Definition user : string := "user-1".

(** A persistence service that accepts every write, and one that rejects
    them. *)
Definition accepting : Z -> Status -> nat -> option string :=
  fun _ _ _ => None.


Definition unlockAccepting : Z -> option string := fun _ => None.

End Sample.

(** A progress table and a list of levels for the sample user. *)
Module SampleProgress.

Definition table : ProgressTable :=
  [ mkProgressRow "user-1" 1 completed 5;
    mkProgressRow "user-1" 2 completed 3;
    mkProgressRow "user-2" 1 unlocked 0;
    mkProgressRow "user-1" 3 locked 0 ].

Definition airport : Level := mkLevel "l2" 2 "Travel" "airport.png".
Definition shopping : Level := mkLevel "l3" 3 "Shopping" "shop.png".
Definition office : Level := mkLevel "l9" 9 "Office" "office.png".

Definition levels : list Level := [shopping; Sample.restaurant; airport].

End SampleProgress.

Section QuizPage.

(** [user!.id], [parseInt(levelNumber!)], the answer of the persistence
    service to the progress write of [endQuiz] ([None]: accepted,
    [Some message]: rejected), its answer to the unlock write, which
    [endQuiz] does not read, and the similarity function. *)
Variable user_id : string.
Variable levelNumber : Z.
Variable progressError : Z -> Status -> nat -> option string.
Variable unlockError : Z -> option string.
Variable compareTwoStrings : string -> string -> Q.

(** The state of a freshly mounted component. *)
Definition mount : Session :=
  {| ui := {| level := None; questions := []; currentQuestionIndex := 0;
              score := 0; mistakes := 0; selectedOption := None;
              isCorrect := None; feedbackText := NoFeedback;
              loading := true |};
     log := [];
     listening := None |}.

(** [fetchQuizData] (lines 69-93); its arguments are the answers to the two
    queries. *)
Definition fetchQuizData (levelRes : Response Level)
  (questionsRes : Level -> Response (list Question)) (s : Session) : Session :=
  match levelRes with
  | Failure message =>
      setLoading false (emit (Navigate "/levels") (toast (ToastError message) s))
  | Data levelData =>
      let s := setLevel levelData s in
      match questionsRes levelData with
      | Failure message =>
          setLoading false
            (emit (Navigate "/levels") (toast (ToastError message) s))
      | Data questionsData =>
          setLoading false (setQuestions questionsData s)
      end
  end.

(** [start(level)]: the component is mounted and both queries succeed. *)
Definition start (levelData : Level) (qs : list Question) : Session :=
  fetchQuizData (Data levelData) (fun _ => Data qs) mount.

(** The load failed: the catch branch reported an error and left the page. *)
Definition loadFailed (s : Session) : Prop :=
  In (Navigate "/levels") (log s).

(** [endQuiz] (lines 181-217), a closure over the render [r]. *)
Definition endQuiz (r : State) (failedDueToMistakes : bool) (s : Session)
  : Session :=
  let finalScore := if failedDueToMistakes then 0 else score r in
  let status := if failedDueToMistakes then unlocked else completed in
  let s := emit (ProgressUpdate user_id levelNumber status finalScore) s in
  match progressError levelNumber status finalScore with
  | Some message => toast (ToastError message) s
  | None =>
      let s := if failedDueToMistakes then s
               else emit (UnlockUpdate user_id (levelNumber + 1)%Z) s in
      let s := toast (if failedDueToMistakes then ToastTryAgain
                      else ToastLevelCompleted finalScore
                             (List.length (questions r))) s in
      emit (NavigateAfter "/levels" 2000) s
  end.

(** The score and the status that [endQuiz] writes. *)
Definition finalScoreOf (r : State) (failedDueToMistakes : bool) : nat :=
  if failedDueToMistakes then 0 else score r.

Definition statusOf (failedDueToMistakes : bool) : Status :=
  if failedDueToMistakes then unlocked else completed.

(** [nextQuestion] (lines 170-179), a closure over the render [r]. *)
Definition nextQuestion (r : State) (s : Session) : Session :=
  if currentQuestionIndex r + 1 <? List.length (questions r) then
    setFeedbackText NoFeedback
      (setIsCorrect None
         (setSelectedOption None
            (setCurrentQuestionIndex (currentQuestionIndex r + 1) s)))
  else endQuiz r false s.

(** [checkAnswer] (lines 146-168), a closure over the render [r].  It
    returns the timer it schedules; [None] stands for the TypeError raised
    when there is no current question. *)
Definition checkAnswer (r : State) (selectedAnswer : string) (s : Session)
  : option (Session * Timer) :=
  match currentQuestion r with
  | None => None
  | Some q =>
      let correct := String.eqb selectedAnswer (correct_answer q) in
      let s := setIsCorrect (Some correct) s in
      if correct then
        let s := setScore (score r + 1) s in
        let s := toast ToastCorrect s in
        Some (s, mkTimer CallNextQuestion r 2000)
      else
        let newMistakes := mistakes r + 1 in
        let s := setMistakes newMistakes s in
        let s := toast ToastIncorrect s in
        if mistakeLimit <=? newMistakes then
          let s := toast ToastThreeMistakes s in
          Some (s, mkTimer (CallEndQuiz true) r 2000)
        else
          Some (s, mkTimer CallNextQuestion r 2500)
  end.

(** The timer fires: its callback runs in the render that scheduled it. *)
Definition fire (t : Timer) (s : Session) : Session :=
  match callback t with
  | CallNextQuestion => nextQuestion (closure t) s
  | CallEndQuiz failedDueToMistakes =>
      endQuiz (closure t) failedDueToMistakes s
  end.

(** What both callers of [checkAnswer] do in their render [r]:
    [setSelectedOption(x); checkAnswer(x)], followed by the timer that
    [checkAnswer] scheduled. *)
Definition selectAndCheck (r : State) (x : string) (s : Session)
  : option Session :=
  match checkAnswer r x (setSelectedOption (Some x) s) with
  | None => None
  | Some (s', t) => Some (fire t s')
  end.

(** [submitAnswer(candidateOption)] on the session as last rendered. *)
Definition submitAnswer (candidateOption : string) (s : Session)
  : option Session :=
  selectAndCheck (ui s) candidateOption s.

(** [handleSpeechResult] (lines 133-144), a closure over the render [r]. *)
Definition handleSpeechResult (r : State) (spokenText : string) (s : Session)
  : option Session :=
  match currentQuestion r with
  | None => None
  | Some q =>
      match findBestMatch compareTwoStrings spokenText (options q) with
      | None => Some (setFeedbackText UnrecognizedAnswer s)
      | Some matchResult => selectAndCheck r (matched matchResult) s
      end
  end.

(** The [onClick] of an option button (lines 328-333). *)
Definition optionClick (opt : string) (s : Session) : option Session :=
  match selectedOption (ui s) with
  | None => submitAnswer opt s
  | Some _ => Some s
  end.

(** The microphone button is part of the question card, which is rendered
    only when there is a current question (line 271), and is disabled while
    the engine listens or an option is selected (line 301). *)
Definition micEnabled (s : Session) : bool :=
  match currentQuestion (ui s), selectedOption (ui s), listening s with
  | Some _, None, None => true
  | _, _, _ => false
  end.

(** [startListening] (lines 105-131): [setIsListening(true)], the feedback
    text, and the callbacks installed on the engine, which close over the
    render of the press. *)
Definition startListening (s : Session) : Session :=
  let r := ui s in
  let s := setFeedbackText Listening s in
  {| ui := ui s; log := log s; listening := Some r |}.

(** [recognition.onresult] (lines 114-118), in the render of the press that
    installed it; the engine delivers a result only between [start] and
    [onend]. *)
Definition onresult (spokenText : string) (s : Session) : option Session :=
  match listening s with
  | None => Some s
  | Some r =>
      handleSpeechResult r spokenText (setFeedbackText (YouSaid spokenText) s)
  end.

(** [recognition.onend] (lines 126-128): [setIsListening(false)]. *)
Definition onend (s : Session) : Session :=
  {| ui := ui s; log := log s; listening := None |}.

(** [recognition.onerror] (lines 120-124); the engine reports an error
    only between [start] and [onend]. *)
Definition onerror (s : Session) : Session :=
  match listening s with
  | None => s
  | Some _ => onend (setFeedbackText CouldNotRecognize s)
  end.

(** The microphone pressed, its result delivered at once, the engine
    stopped. *)
Definition speakNow (spokenText : string) (s : Session) : option Session :=
  if micEnabled s then
    match onresult spokenText (startListening s) with
    | None => None
    | Some s' => Some (onend s')
    end
  else Some s.

Definition step (e : Event) (s : Session) : option Session :=
  match e with
  | Click opt => optionClick opt s
  | Speech spokenText => speakNow spokenText s
  | MicPress => Some (if micEnabled s then startListening s else s)
  | Result spokenText => onresult spokenText s
  | RecognitionError => Some (onerror s)
  | RecognitionEnd => Some (onend s)
  end.

Fixpoint run (es : list Event) (s : Session) : option Session :=
  match es with
  | [] => Some s
  | e :: es' =>
      match step e s with
      | None => None
      | Some s' => run es' s'
      end
  end.

(** The clicks of a learner who picks the correct answer of every question. *)
Definition correctAnswers (qs : list Question) : list Event :=
  map (fun q => Click (correct_answer q)) qs.

(** The sessions the page can be in for a level and its questions. *)
Inductive reachable (levelData : Level) (qs : list Question)
  : Session -> Prop :=
| reachable_start : reachable levelData qs (start levelData qs)
| reachable_step : forall s e s',
    reachable levelData qs s -> step e s = Some s' ->
    reachable levelData qs s'.

(** The events that are handled in the render on display: clicks, and
    speech results delivered before anything else happens. *)
Definition handledAtOnce (e : Event) : bool :=
  match e with
  | Click _ => true
  | Speech _ => true
  | _ => false
  end.

(** The sessions reached through such events only. *)
Inductive reachableAtOnce (levelData : Level) (qs : list Question)
  : Session -> Prop :=
| reachableAtOnce_start : reachableAtOnce levelData qs (start levelData qs)
| reachableAtOnce_step : forall s e s',
    reachableAtOnce levelData qs s -> handledAtOnce e = true ->
    step e s = Some s' ->
    reachableAtOnce levelData qs s'.

(** *** Auxiliary notions for the properties *)

(** Whether a submission of [a] in the render [r] on question [q] ends the
    quiz by mistakes, and whether it ends it at all. *)
Definition failsOn (r : State) (q : Question) (a : string) : bool :=
  negb (String.eqb a (correct_answer q)) && (mistakeLimit <=? mistakes r + 1).

Definition endsOn (r : State) (q : Question) (a : string) : bool :=
  failsOn r q a
  || negb (currentQuestionIndex r + 1 <? List.length (questions r)).

(** The render [r] and the live state agree on what the handlers read. *)
Definition agrees (r st : State) : Prop :=
  questions r = questions st /\
  currentQuestionIndex r = currentQuestionIndex st /\
  score r = score st /\
  mistakes r = mistakes st.

(** What holds of every session in which each speech result was delivered
    at once: an open session has no option selected, fewer than 3 mistakes,
    and has moved past one question per answer; a terminal one keeps its
    option selected and has sent its writes once. *)
Definition invariant (qs : list Question) (s : Session) : Prop :=
  questions (ui s) = qs /\
  match outcome s with
  | None =>
      selectedOption (ui s) = None /\
      mistakes (ui s) < mistakeLimit /\
      currentQuestionIndex (ui s) = score (ui s) + mistakes (ui s) /\
      currentQuestionIndex (ui s) <= List.length qs - 1 /\
      unlockUpdates (log s) = []
  | Some (o, sc) =>
      selectedOption (ui s) <> None /\
      currentQuestionIndex (ui s) < List.length qs /\
      progressUpdates (log s) =
        [(user_id, levelNumber, statusOfOutcome o, sc)] /\
      unlockUpdates (log s) =
        match o, progressError levelNumber (statusOfOutcome o) sc with
        | Completed, None => [(user_id, (levelNumber + 1)%Z)]
        | _, _ => []
        end /\
      match o with
      | FailedByMistakes => sc = 0 /\ mistakes (ui s) = mistakeLimit
      | Completed =>
          mistakes (ui s) < mistakeLimit /\
          sc <= score (ui s) <= sc + 1
      end
  end.

(** The render over which a pending [onresult] closes shows a question of
    the level. *)
Definition closureOK (qs : list Question) (r : State) : Prop :=
  questions r = qs /\ currentQuestionIndex r < List.length qs.

(** What holds of every session the page can reach, late results
    included. *)
Definition sound (qs : list Question) (s : Session) : Prop :=
  questions (ui s) = qs /\
  (currentQuestionIndex (ui s) < List.length qs \/
   currentQuestionIndex (ui s) = 0) /\
  (forall r, listening s = Some r -> closureOK qs r) /\
  (outcome s = None ->
     selectedOption (ui s) = None /\
     mistakes (ui s) < mistakeLimit /\
     unlockUpdates (log s) = []).

(** The render in which an event is handled. *)
Definition renderOf (e : Event) (s : Session) : State :=
  match e, listening s with
  | Result _, Some r => r
  | _, _ => ui s
  end.

(** Two sessions that differ at most in the feedback text and in what the
    recognition engine listens for. *)
Definition sameAnswers (s s2 : Session) : Prop :=
  log s2 = log s /\
  questions (ui s2) = questions (ui s) /\
  currentQuestionIndex (ui s2) = currentQuestionIndex (ui s) /\
  score (ui s2) = score (ui s) /\
  mistakes (ui s2) = mistakes (ui s) /\
  selectedOption (ui s2) = selectedOption (ui s) /\
  isCorrect (ui s2) = isCorrect (ui s).

(** The events that a session whose option is selected ignores: the option
    buttons and the microphone button. *)
Definition isInput (e : Event) : bool :=
  match e with
  | Click _ | Speech _ | MicPress => true
  | Result _ | RecognitionError | RecognitionEnd => false
  end.

(** *** The writes of a session, stored *)

Definition isWrite (e : Effect) : bool :=
  match e with
  | ProgressUpdate _ _ _ _ => true
  | UnlockUpdate _ _ => true
  | _ => false
  end.

(** The writes of a log, in the order in which they were sent. *)
Definition writes (l : list Effect) : list Effect := filter isWrite l.

(** What the persistence service does with an effect: a write is applied
    unless the service rejects it, the rest does not concern it. *)
Definition applyWrite (t : ProgressTable) (e : Effect) : ProgressTable :=
  match e with
  | ProgressUpdate u n st sc =>
      match progressError n st sc with
      | None => updateProgress u n st sc t
      | Some _ => t
      end
  | UnlockUpdate u n =>
      match unlockError n with
      | None => updateStatus u n unlocked t
      | Some _ => t
      end
  | _ => t
  end.

(** The table after the effects of a log. *)
Definition persist (l : list Effect) (t : ProgressTable) : ProgressTable :=
  fold_left applyWrite l t.

(** The writes that [endQuiz] sends in the render [r]. *)
Definition endWrites (r : State) (failedDueToMistakes : bool) : list Effect :=
  ProgressUpdate user_id levelNumber (statusOf failedDueToMistakes)
    (finalScoreOf r failedDueToMistakes)
  :: match failedDueToMistakes,
           progressError levelNumber (statusOf failedDueToMistakes)
             (finalScoreOf r failedDueToMistakes) with
     | false, None => [UnlockUpdate user_id (levelNumber + 1)%Z]
     | _, _ => []
     end.

(** The books of a session in which each speech result was delivered at
    once: what it has sent, in order, and, once terminal, how the answers add
    up and what the score written is. *)
Definition ledger (qs : list Question) (s : Session) : Prop :=
  match outcome s with
  | None => writes (log s) = []
  | Some (o, sc) =>
      writes (log s) =
        ProgressUpdate user_id levelNumber (statusOfOutcome o) sc
        :: match o, progressError levelNumber (statusOfOutcome o) sc with
           | Completed, None => [UnlockUpdate user_id (levelNumber + 1)%Z]
           | _, _ => []
           end /\
      score (ui s) + mistakes (ui s) = currentQuestionIndex (ui s) + 1 /\
      exists b,
        isCorrect (ui s) = Some b /\
        (b = false -> 1 <= mistakes (ui s)) /\
        match o with
        | FailedByMistakes => b = false
        | Completed =>
            currentQuestionIndex (ui s) + 1 = List.length qs /\
            score (ui s) = sc + (if b then 1 else 0)
        end
  end.

(** ** Properties *)

(** *** The log *)

Lemma progressUpdates_app : forall l1 l2,
  progressUpdates (l1 ++ l2) = progressUpdates l1 ++ progressUpdates l2.
Proof. intros; unfold progressUpdates; apply flat_map_app. Qed.

Lemma unlockUpdates_app : forall l1 l2,
  unlockUpdates (l1 ++ l2) = unlockUpdates l1 ++ unlockUpdates l2.
Proof. intros; unfold unlockUpdates; apply flat_map_app. Qed.

Lemma outcome_None_iff : forall s,
  outcome s = None <-> progressUpdates (log s) = [].
Proof.
  intros s; unfold outcome.
  destruct (progressUpdates (log s)) as [|[[[u n] st] sc] l]; split;
    intros H; try reflexivity; discriminate H.
Qed.

(** *** endQuiz and nextQuestion *)

Lemma endQuiz_ui : forall r f s, ui (endQuiz r f s) = ui s.
Proof.
  intros r f s; unfold endQuiz.
  destruct (progressError _ _ _); destruct f; reflexivity.
Qed.

Lemma endQuiz_progressUpdates : forall r f s,
  progressUpdates (log (endQuiz r f s)) =
  progressUpdates (log s) ++ [(user_id, levelNumber, statusOf f, finalScoreOf r f)].
Proof.
  intros r f s; unfold endQuiz, statusOf, finalScoreOf.
  destruct (progressError _ _ _); destruct f; cbn;
    repeat (rewrite progressUpdates_app; cbn);
    repeat rewrite app_nil_r; reflexivity.
Qed.

Lemma endQuiz_unlockUpdates : forall r f s,
  unlockUpdates (log (endQuiz r f s)) =
  unlockUpdates (log s) ++
    match f, progressError levelNumber (statusOf f) (finalScoreOf r f) with
    | false, None => [(user_id, (levelNumber + 1)%Z)]
    | _, _ => []
    end.
Proof.
  intros r f s; unfold endQuiz, statusOf, finalScoreOf.
  destruct f; destruct (progressError _ _ _); cbn;
    repeat (rewrite unlockUpdates_app; cbn);
    repeat rewrite app_nil_r; reflexivity.
Qed.


(** *** One submission *)

Lemma selectAndCheck_spec : forall r a q s,
  currentQuestion r = Some q ->
  exists s',
    selectAndCheck r a s = Some s' /\
    questions (ui s') = questions (ui s) /\
    level (ui s') = level (ui s) /\
    loading (ui s') = loading (ui s) /\
    score (ui s') =
      (if String.eqb a (correct_answer q) then score r + 1 else score (ui s)) /\
    mistakes (ui s') =
      (if String.eqb a (correct_answer q) then mistakes (ui s)
       else mistakes r + 1) /\
    if endsOn r q a then
      currentQuestionIndex (ui s') = currentQuestionIndex (ui s) /\
      selectedOption (ui s') = Some a /\
      progressUpdates (log s') =
        progressUpdates (log s) ++
          [(user_id, levelNumber, statusOf (failsOn r q a),
            finalScoreOf r (failsOn r q a))] /\
      unlockUpdates (log s') =
        unlockUpdates (log s) ++
          match failsOn r q a,
                progressError levelNumber (statusOf (failsOn r q a))
                  (finalScoreOf r (failsOn r q a)) with
          | false, None => [(user_id, (levelNumber + 1)%Z)]
          | _, _ => []
          end
    else
      currentQuestionIndex (ui s') = currentQuestionIndex r + 1 /\
      selectedOption (ui s') = None /\
      progressUpdates (log s') = progressUpdates (log s) /\
      unlockUpdates (log s') = unlockUpdates (log s).
Proof.
  intros r a q s Hq.
  unfold selectAndCheck, checkAnswer, endsOn, failsOn.
  rewrite Hq.
  destruct (String.eqb a (correct_answer q)) eqn:Hc; cbn [negb andb orb].
  - unfold fire; cbn [callback closure]. unfold nextQuestion.
    destruct (currentQuestionIndex r + 1 <? List.length (questions r)) eqn:Hl;
      cbn [negb].
    + eexists; split; [reflexivity|]. cbn.
      rewrite progressUpdates_app, unlockUpdates_app; cbn.
      rewrite !app_nil_r. repeat split; reflexivity.
    + eexists; split; [reflexivity|].
      rewrite endQuiz_ui, endQuiz_progressUpdates, endQuiz_unlockUpdates. cbn.
      rewrite progressUpdates_app, unlockUpdates_app; cbn.
      rewrite !app_nil_r. repeat split; reflexivity.
  - destruct (mistakeLimit <=? mistakes r + 1) eqn:Hm; cbn [negb andb orb].
    + unfold fire; cbn [callback closure].
      eexists; split; [reflexivity|].
      rewrite endQuiz_ui, endQuiz_progressUpdates, endQuiz_unlockUpdates. cbn.
      rewrite !progressUpdates_app, !unlockUpdates_app; cbn.
      rewrite !app_nil_r. repeat split; reflexivity.
    + unfold fire; cbn [callback closure]. unfold nextQuestion.
      destruct (currentQuestionIndex r + 1 <? List.length (questions r)) eqn:Hl;
        cbn [negb].
      * eexists; split; [reflexivity|]. cbn.
        rewrite progressUpdates_app, unlockUpdates_app; cbn.
        rewrite !app_nil_r. repeat split; reflexivity.
      * eexists; split; [reflexivity|].
        rewrite endQuiz_ui, endQuiz_progressUpdates, endQuiz_unlockUpdates. cbn.
        rewrite progressUpdates_app, unlockUpdates_app; cbn.
        rewrite !app_nil_r. repeat split; reflexivity.
Qed.


Lemma selectAndCheck_undefined : forall r a s,
  currentQuestion r = None -> selectAndCheck r a s = None.
Proof.
  intros r a s Hq; unfold selectAndCheck, checkAnswer; rewrite Hq; reflexivity.
Qed.

Lemma endQuiz_listening : forall r f s,
  listening (endQuiz r f s) = listening s.
Proof.
  intros r f s; unfold endQuiz.
  destruct (progressError _ _ _); destruct f; reflexivity.
Qed.

Lemma selectAndCheck_listening : forall r a s s',
  selectAndCheck r a s = Some s' -> listening s' = listening s.
Proof.
  intros r a s s' H. unfold selectAndCheck, checkAnswer in H.
  destruct (currentQuestion r) as [q|]; [|discriminate].
  destruct (String.eqb a (correct_answer q)).
  - injection H as <-. unfold fire; cbn [callback closure].
    unfold nextQuestion.
    destruct (currentQuestionIndex r + 1 <? List.length (questions r));
      [reflexivity|]. rewrite endQuiz_listening; reflexivity.
  - destruct (mistakeLimit <=? mistakes r + 1); injection H as <-;
      unfold fire; cbn [callback closure].
    + rewrite endQuiz_listening; reflexivity.
    + unfold nextQuestion.
      destruct (currentQuestionIndex r + 1 <? List.length (questions r));
        [reflexivity|]. rewrite endQuiz_listening; reflexivity.
Qed.

(** *** The invariant of the sessions without late results *)

Lemma invariant_start : forall levelData qs, invariant qs (start levelData qs).
Proof.
  intros levelData qs; unfold invariant, mistakeLimit; cbn.
  repeat split; try reflexivity; lia.
Qed.

Ltac finish :=
  repeat match goal with |- _ /\ _ => split end;
  try congruence; try lia;
  try (repeat match goal with |- context [match ?x with _ => _ end] =>
                destruct x
              end; congruence).

Lemma invariant_selectAndCheck : forall qs r a s s',
  invariant qs s -> outcome s = None -> agrees r (ui s) ->
  selectAndCheck r a s = Some s' ->
  invariant qs s'.
Proof.
  intros qs r a s s' [Hqs Hinv] Hout (Hrq & Hri & Hrs & Hrm) Hstep.
  rewrite Hout in Hinv. destruct Hinv as (Hsel & Hmis & Hidx & Hle & Hunl).
  apply outcome_None_iff in Hout.
  destruct (currentQuestion r) as [q|] eqn:Hq;
    [|rewrite (selectAndCheck_undefined _ _ _ Hq) in Hstep; discriminate].
  destruct (selectAndCheck_spec r a q s Hq)
    as (s1 & Heq & Hquest & _ & _ & Hscore & Hmist & Hcase).
  rewrite Heq in Hstep; injection Hstep as <-.
  assert (Hlt : currentQuestionIndex r < List.length qs).
  { unfold currentQuestion in Hq. rewrite <- Hqs, <- Hrq.
    apply nth_error_Some. rewrite Hq; discriminate. }
  unfold invariant. split; [congruence|].
  unfold endsOn, failsOn in Hcase. unfold mistakeLimit in *.
  destruct (String.eqb a (correct_answer q)) eqn:Hc; cbn [negb andb orb] in Hcase.
  - destruct (currentQuestionIndex r + 1 <? List.length (questions r)) eqn:Hl;
      cbn [negb] in Hcase.
    + destruct Hcase as (Hi & Hs & Hp & Hu).
      unfold outcome; rewrite Hp, Hout.
      apply Nat.ltb_lt in Hl. rewrite Hrq, Hqs in Hl.
      finish.
    + destruct Hcase as (Hi & Hs & Hp & Hu).
      unfold outcome; rewrite Hp, Hout; cbn.
      rewrite Hu, Hunl; cbn.
      finish.
  - destruct (3 <=? mistakes r + 1) eqn:Hm; cbn [negb andb orb] in Hcase;
      [apply Nat.leb_le in Hm | apply Nat.leb_gt in Hm].
    + destruct Hcase as (Hi & Hs & Hp & Hu).
      unfold outcome; rewrite Hp, Hout; cbn.
      rewrite Hu, Hunl; cbn.
      finish.
    + destruct (currentQuestionIndex r + 1 <? List.length (questions r)) eqn:Hl;
        cbn [negb] in Hcase.
      * destruct Hcase as (Hi & Hs & Hp & Hu).
        unfold outcome; rewrite Hp, Hout.
        apply Nat.ltb_lt in Hl. rewrite Hrq, Hqs in Hl.
        finish.
      * destruct Hcase as (Hi & Hs & Hp & Hu).
        unfold outcome; rewrite Hp, Hout; cbn.
        rewrite Hu, Hunl; cbn.
        finish.
Qed.

Lemma invariant_open : forall qs s,
  invariant qs s -> selectedOption (ui s) = None -> outcome s = None.
Proof.
  intros qs s [_ Hinv] Hsel.
  destruct (outcome s) as [[o sc]|]; [|reflexivity].
  destruct Hinv as (Hne & _). congruence.
Qed.

Lemma micEnabled_true : forall s,
  micEnabled s = true ->
  (exists q, currentQuestion (ui s) = Some q) /\
  selectedOption (ui s) = None /\ listening s = None.
Proof.
  intros s H; unfold micEnabled in H.
  destruct (currentQuestion (ui s)) as [q|]; [|discriminate].
  destruct (selectedOption (ui s)); [discriminate|].
  destruct (listening s); [discriminate|].
  split; [exists q; reflexivity|split; reflexivity].
Qed.

Lemma invariant_step : forall qs e s s',
  handledAtOnce e = true ->
  invariant qs s -> step e s = Some s' -> invariant qs s'.
Proof.
  intros qs e s s' He Hinv Hstep.
  destruct e as [opt|spokenText| | | |]; try discriminate He; cbn in Hstep.
  - unfold optionClick in Hstep.
    destruct (selectedOption (ui s)) eqn:Hsel;
      [injection Hstep as <-; exact Hinv|].
    apply (invariant_selectAndCheck qs (ui s) opt s s' Hinv
             (invariant_open qs s Hinv Hsel)); [repeat split|exact Hstep].
  - unfold speakNow in Hstep.
    destruct (micEnabled s) eqn:Hmic; [|injection Hstep as <-; exact Hinv].
    destruct (micEnabled_true s Hmic) as ([q Hq] & Hsel & _).
    unfold onresult in Hstep. cbn [listening startListening] in Hstep.
    unfold handleSpeechResult in Hstep. rewrite Hq in Hstep.
    set (s2 := setFeedbackText (YouSaid spokenText) (startListening s)) in *.
    assert (Hinv2 : invariant qs s2) by exact Hinv.
    assert (Hout2 : outcome s2 = None)
      by exact (invariant_open qs s Hinv Hsel).
    destruct (findBestMatch compareTwoStrings spokenText (options q))
      as [matchResult|].
    + destruct (selectAndCheck (ui s) (matched matchResult) s2) as [s1|] eqn:Hsc;
        [|discriminate].
      injection Hstep as <-.
      assert (H1 : invariant qs s1).
      { apply (invariant_selectAndCheck qs (ui s) (matched matchResult) s2 s1
                 Hinv2 Hout2); [repeat split|exact Hsc]. }
      exact H1.
    + injection Hstep as <-. exact Hinv2.
Qed.

Lemma reachableAtOnce_invariant : forall levelData qs s,
  reachableAtOnce levelData qs s -> invariant qs s.
Proof.
  intros levelData qs s H; induction H.
  - apply invariant_start.
  - eapply invariant_step; eauto.
Qed.

Lemma reachableAtOnce_listening : forall levelData qs s,
  reachableAtOnce levelData qs s -> listening s = None.
Proof.
  intros levelData qs s H; induction H as [|s e s' _ IH He Hstep];
    [reflexivity|].
  destruct e as [opt|spokenText| | | |]; try discriminate He; cbn in Hstep.
  - unfold optionClick in Hstep.
    destruct (selectedOption (ui s)); [injection Hstep as <-; exact IH|].
    rewrite (selectAndCheck_listening _ _ _ _ Hstep); exact IH.
  - unfold speakNow in Hstep.
    destruct (micEnabled s); [|injection Hstep as <-; exact IH].
    destruct (onresult spokenText (startListening s)); [|discriminate].
    injection Hstep as <-; reflexivity.
Qed.

Lemma reachableAtOnce_reachable : forall levelData qs s,
  reachableAtOnce levelData qs s -> reachable levelData qs s.
Proof.
  intros levelData qs s H; induction H.
  - apply reachable_start.
  - eapply reachable_step; eauto.
Qed.

(** *** The invariant of every session, late results included *)

Lemma sound_start : forall levelData qs, sound qs (start levelData qs).
Proof.
  intros levelData qs; unfold sound, mistakeLimit; cbn.
  split; [reflexivity|]. split; [right; reflexivity|].
  split; [intros r Hr; discriminate Hr|].
  intros _. repeat split; lia.
Qed.

(** A session that differs from a sound one in the feedback text and in
    what the engine listens for only. *)
Lemma sound_ext : forall qs s s2,
  sound qs s ->
  questions (ui s2) = questions (ui s) ->
  currentQuestionIndex (ui s2) = currentQuestionIndex (ui s) ->
  selectedOption (ui s2) = selectedOption (ui s) ->
  mistakes (ui s2) = mistakes (ui s) ->
  log s2 = log s ->
  (forall r, listening s2 = Some r -> closureOK qs r) ->
  sound qs s2.
Proof.
  intros qs s s2 (Hqs & Hidx & Hlis & Hopen) Hq Hi Hs Hm Hl Hc.
  unfold sound, outcome in *. rewrite Hq, Hi, Hs, Hm, Hl.
  repeat match goal with |- _ /\ _ => split end; assumption.
Qed.

Lemma currentQuestion_closureOK : forall qs r q,
  questions r = qs -> currentQuestion r = Some q -> closureOK qs r.
Proof.
  intros qs r q Hqs Hq; split; [exact Hqs|].
  unfold currentQuestion in Hq. rewrite <- Hqs.
  apply nth_error_Some. rewrite Hq; discriminate.
Qed.

Lemma closureOK_currentQuestion : forall qs r,
  closureOK qs r -> exists q, currentQuestion r = Some q.
Proof.
  intros qs r [Hqs Hlt]. unfold currentQuestion; rewrite Hqs.
  destruct (nth_error qs (currentQuestionIndex r)) as [q|] eqn:Hq.
  - exists q; reflexivity.
  - apply nth_error_None in Hq; lia.
Qed.

Lemma sound_selectAndCheck : forall qs r a s s',
  sound qs s -> closureOK qs r ->
  selectAndCheck r a s = Some s' ->
  sound qs s'.
Proof.
  intros qs r a s s' (Hqs & Hidx & Hlis & Hopen) Hr Hstep.
  destruct (closureOK_currentQuestion qs r Hr) as [q Hq].
  destruct Hr as [Hrq Hrlt].
  pose proof (selectAndCheck_listening _ _ _ _ Hstep) as Hl.
  destruct (selectAndCheck_spec r a q s Hq)
    as (s1 & Heq & Hquest & _ & _ & _ & Hmist & Hcase).
  rewrite Heq in Hstep; injection Hstep as <-.
  unfold sound. rewrite Hl, Hquest.
  split; [exact Hqs|].
  destruct (endsOn r q a) eqn:He.
  - destruct Hcase as (Hi & Hs & Hp & _).
    rewrite Hi. split; [exact Hidx|]. split; [exact Hlis|].
    intros Hout. apply outcome_None_iff in Hout. rewrite Hp in Hout.
    destruct (progressUpdates (log s)); discriminate Hout.
  - destruct Hcase as (Hi & Hs & Hp & Hu).
    unfold endsOn in He. apply orb_false_iff in He. destruct He as [Hf Hn].
    apply negb_false_iff, Nat.ltb_lt in Hn. rewrite Hrq in Hn.
    rewrite Hi. split; [left; exact Hn|]. split; [exact Hlis|].
    intros Hout. apply outcome_None_iff in Hout. rewrite Hp in Hout.
    apply outcome_None_iff in Hout.
    destruct (Hopen Hout) as (_ & Hm & Hun).
    split; [exact Hs|]. split; [|rewrite Hu; exact Hun].
    rewrite Hmist. unfold failsOn in Hf.
    destruct (String.eqb a (correct_answer q)); [exact Hm|].
    cbn [negb andb] in Hf. apply Nat.leb_gt in Hf. exact Hf.
Qed.

Lemma sound_handleSpeechResult : forall qs r spokenText s s',
  sound qs s -> closureOK qs r ->
  handleSpeechResult r spokenText s = Some s' ->
  sound qs s'.
Proof.
  intros qs r spokenText s s' Hs Hr Hstep.
  unfold handleSpeechResult in Hstep.
  destruct (currentQuestion r) as [q|]; [|discriminate].
  destruct (findBestMatch compareTwoStrings spokenText (options q))
    as [matchResult|].
  - exact (sound_selectAndCheck qs r _ s s' Hs Hr Hstep).
  - injection Hstep as <-.
    apply (sound_ext qs s); try reflexivity; [exact Hs|].
    destruct Hs as (_ & _ & Hlis & _). exact Hlis.
Qed.

Lemma sound_startListening : forall qs s,
  sound qs s -> micEnabled s = true -> sound qs (startListening s).
Proof.
  intros qs s Hs Hmic.
  destruct (micEnabled_true s Hmic) as ([q Hq] & _ & _).
  apply (sound_ext qs s); try reflexivity; [exact Hs|].
  intros r Hr. cbn in Hr. injection Hr as <-.
  destruct Hs as (Hqs & _). exact (currentQuestion_closureOK qs _ q Hqs Hq).
Qed.

Lemma sound_onend : forall qs s, sound qs s -> sound qs (onend s).
Proof.
  intros qs s Hs. apply (sound_ext qs s); try reflexivity; [exact Hs|].
  intros r Hr; discriminate Hr.
Qed.

Lemma sound_onresult : forall qs spokenText s s',
  sound qs s -> onresult spokenText s = Some s' -> sound qs s'.
Proof.
  intros qs spokenText s s' Hs Hstep. unfold onresult in Hstep.
  destruct (listening s) as [r|] eqn:Hl; [|injection Hstep as <-; exact Hs].
  assert (Hr : closureOK qs r)
    by (destruct Hs as (_ & _ & Hlis & _); exact (Hlis r Hl)).
  apply (sound_handleSpeechResult qs r spokenText
           (setFeedbackText (YouSaid spokenText) s) s');
    [|exact Hr|exact Hstep].
  apply (sound_ext qs s); try reflexivity; [exact Hs|].
  destruct Hs as (_ & _ & Hlis & _). exact Hlis.
Qed.

Lemma sound_step : forall qs e s s',
  sound qs s -> step e s = Some s' -> sound qs s'.
Proof.
  intros qs e s s' Hs Hstep.
  destruct e as [opt|spokenText| |spokenText| |]; cbn in Hstep.
  - unfold optionClick in Hstep.
    destruct (selectedOption (ui s)); [injection Hstep as <-; exact Hs|].
    unfold submitAnswer in Hstep.
    destruct (currentQuestion (ui s)) as [q|] eqn:Hq;
      [|rewrite (selectAndCheck_undefined _ _ _ Hq) in Hstep; discriminate].
    apply (sound_selectAndCheck qs (ui s) opt s s' Hs); [|exact Hstep].
    destruct Hs as (Hqs & _). exact (currentQuestion_closureOK qs _ q Hqs Hq).
  - unfold speakNow in Hstep.
    destruct (micEnabled s) eqn:Hmic; [|injection Hstep as <-; exact Hs].
    destruct (onresult spokenText (startListening s)) as [s1|] eqn:Hres;
      [|discriminate].
    injection Hstep as <-. apply sound_onend.
    apply (sound_onresult qs spokenText (startListening s) s1); [|exact Hres].
    apply sound_startListening; assumption.
  - injection Hstep as <-.
    destruct (micEnabled s) eqn:Hmic; [|exact Hs].
    apply sound_startListening; assumption.
  - exact (sound_onresult qs spokenText s s' Hs Hstep).
  - injection Hstep as <-. unfold onerror.
    destruct (listening s); [|exact Hs].
    apply sound_onend. apply (sound_ext qs s); try reflexivity; [exact Hs|].
    destruct Hs as (_ & _ & Hlis & _). exact Hlis.
  - injection Hstep as <-. apply sound_onend; exact Hs.
Qed.

Lemma reachable_sound : forall levelData qs s,
  reachable levelData qs s -> sound qs s.
Proof.
  intros levelData qs s H; induction H.
  - apply sound_start.
  - eapply sound_step; eauto.
Qed.

Lemma reachable_run : forall levelData qs es s s',
  reachable levelData qs s -> run es s = Some s' -> reachable levelData qs s'.
Proof.
  intros levelData qs es; induction es as [|e es IH]; intros s s' Hr Hrun.
  - injection Hrun as <-; exact Hr.
  - cbn in Hrun. destruct (step e s) as [s1|] eqn:Hs; [|discriminate].
    apply (IH s1 s'); [|exact Hrun].
    eapply reachable_step; eauto.
Qed.

(** *** One event, case by case *)

Lemma sameAnswers_refl : forall s, sameAnswers s s.
Proof. intros s; repeat split. Qed.

Lemma sameAnswers_outcome : forall s s2,
  sameAnswers s s2 -> outcome s2 = outcome s.
Proof. intros s s2 (Hl & _); unfold outcome; rewrite Hl; reflexivity. Qed.

(** An event is either handled without judging an answer, or it is one
    [setSelectedOption; checkAnswer] in the render of the event. *)
Lemma step_cases : forall e s s',
  step e s = Some s' ->
  sameAnswers s s' \/
  exists a s0 s1,
    sameAnswers s s0 /\
    selectAndCheck (renderOf e s) a s0 = Some s1 /\
    sameAnswers s1 s'.
Proof.
  intros e s s' Hstep.
  destruct e as [opt|spokenText| |spokenText| |]; cbn in Hstep.
  - unfold optionClick in Hstep.
    destruct (selectedOption (ui s));
      [injection Hstep as <-; left; apply sameAnswers_refl|].
    right. exists opt, s, s'.
    split; [apply sameAnswers_refl|]. split; [exact Hstep|].
    apply sameAnswers_refl.
  - unfold speakNow in Hstep.
    destruct (micEnabled s) eqn:Hmic;
      [|injection Hstep as <-; left; apply sameAnswers_refl].
    unfold onresult in Hstep. cbn [listening startListening] in Hstep.
    unfold handleSpeechResult in Hstep.
    destruct (currentQuestion (ui s)) as [q|]; [|discriminate].
    set (s0 := setFeedbackText (YouSaid spokenText) (startListening s)) in *.
    destruct (findBestMatch compareTwoStrings spokenText (options q))
      as [matchResult|].
    + destruct (selectAndCheck (ui s) (matched matchResult) s0) as [s1|] eqn:Hsc;
        [|discriminate].
      injection Hstep as <-. right.
      exists (matched matchResult), s0, s1.
      split; [repeat split|]. split; [exact Hsc|]. repeat split.
    + injection Hstep as <-. left. repeat split.
  - injection Hstep as <-. left.
    destruct (micEnabled s); repeat split.
  - unfold onresult in Hstep. unfold renderOf.
    destruct (listening s) as [r|];
      [|injection Hstep as <-; left; apply sameAnswers_refl].
    unfold handleSpeechResult in Hstep.
    destruct (currentQuestion r) as [q|]; [|discriminate].
    destruct (findBestMatch compareTwoStrings spokenText (options q))
      as [matchResult|].
    + right.
      exists (matched matchResult), (setFeedbackText (YouSaid spokenText) s), s'.
      split; [repeat split|]. split; [exact Hstep|]. apply sameAnswers_refl.
    + injection Hstep as <-. left. repeat split.
  - injection Hstep as <-. left. unfold onerror.
    destruct (listening s); repeat split.
  - injection Hstep as <-. left. repeat split.
Qed.

(** The render of an event in a reachable session shows a question whenever
    the event judges an answer. *)
Lemma selectAndCheck_question : forall r a s s',
  selectAndCheck r a s = Some s' -> exists q, currentQuestion r = Some q.
Proof.
  intros r a s s' H.
  destruct (currentQuestion r) as [q|] eqn:Hq; [exists q; reflexivity|].
  rewrite (selectAndCheck_undefined _ _ _ Hq) in H; discriminate.
Qed.

Lemma click_is_submitAnswer : forall levelData qs s a,
  reachable levelData qs s -> outcome s = None ->
  step (Click a) s = submitAnswer a s.
Proof.
  intros levelData qs s a Hr Hout.
  destruct (reachable_sound _ _ _ Hr) as (_ & _ & _ & Hopen).
  destruct (Hopen Hout) as (Hsel & _).
  cbn; unfold optionClick; rewrite Hsel; reflexivity.
Qed.

(** *** The claims about the session *)

(** C1. The code departs from the claim when a recognition result arrives
    late.  In a session reached from [start] that is open and counts 2
    mistakes, a result that the engine delivers for a microphone press made
    in an earlier render [r], and that resolves to a wrong option of the
    question of [r], is judged with the mistakes of [r]: when [r] counted
    fewer than 2 mistakes and was not on the last question, the session
    stays open after this third wrong answer, with [mistakes] set to those
    of [r] plus 1 and the index set to that of [r] plus 1, and nothing is
    written. *)
Theorem late_result_third_mistake :
  forall levelData qs s r q spokenText matchResult,
  reachable levelData qs s ->
  outcome s = None ->
  mistakes (ui s) = 2 ->
  listening s = Some r ->
  currentQuestion r = Some q ->
  findBestMatch compareTwoStrings spokenText (options q) = Some matchResult ->
  matched matchResult <> correct_answer q ->
  mistakes r + 1 < mistakeLimit ->
  currentQuestionIndex r + 1 < List.length qs ->
  exists s',
    step (Result spokenText) s = Some s' /\
    outcome s' = None /\
    isTerminal s' = false /\
    mistakes (ui s') = mistakes r + 1 /\
    mistakes (ui s') < mistakes (ui s) + 1 /\
    currentQuestionIndex (ui s') = currentQuestionIndex r + 1 /\
    progressUpdates (log s') = [] /\
    unlockUpdates (log s') = [].
Proof.
  intros levelData qs s r q spokenText matchResult
    Hr Hout Hm Hl Hq Hmatch Hwrong Hrm Hri.
  destruct (reachable_sound _ _ _ Hr) as (Hqs & _ & Hlis & Hopen).
  destruct (Hopen Hout) as (_ & _ & Hunl).
  destruct (Hlis r Hl) as [Hrq _].
  cbn [step]. unfold onresult. rewrite Hl.
  unfold handleSpeechResult. rewrite Hq, Hmatch.
  destruct (selectAndCheck_spec r (matched matchResult) q
              (setFeedbackText (YouSaid spokenText) s) Hq)
    as (s' & Heq & _ & _ & _ & _ & Hmist & Hcase).
  assert (Hc : String.eqb (matched matchResult) (correct_answer q) = false)
    by (apply String.eqb_neq; exact Hwrong).
  unfold endsOn, failsOn in Hcase. rewrite Hc in Hcase, Hmist.
  assert (Hlim : (mistakeLimit <=? mistakes r + 1) = false)
    by (apply Nat.leb_gt; exact Hrm).
  assert (Hnext : (currentQuestionIndex r + 1 <? List.length (questions r))
                  = true)
    by (apply Nat.ltb_lt; rewrite Hrq; exact Hri).
  rewrite Hlim, Hnext in Hcase. cbn [negb andb orb] in Hcase.
  destruct Hcase as (Hi & _ & Hp & Hu).
  apply outcome_None_iff in Hout. cbn [log setFeedbackText] in Hp, Hu.
  rewrite Hout in Hp. rewrite Hunl in Hu.
  assert (Hout' : outcome s' = None) by (apply outcome_None_iff; exact Hp).
  exists s'. unfold isTerminal. rewrite Hout'.
  unfold mistakeLimit in Hrm.
  repeat match goal with |- _ /\ _ => split end;
    try reflexivity; try assumption; lia.
Qed.



Lemma open_session_bounds_aux : forall levelData qs s,
  qs <> [] ->
  reachable levelData qs s ->
  outcome s = None ->
  mistakes (ui s) < mistakeLimit /\
  currentQuestionIndex (ui s) < List.length qs.
Proof.
  intros levelData qs s Hne Hr Hout.
  destruct (reachable_sound _ _ _ Hr) as (_ & Hidx & _ & Hopen).
  destruct (Hopen Hout) as (_ & Hm & _).
  split; [exact Hm|].
  destruct Hidx as [Hidx|Hidx]; [exact Hidx|].
  destruct qs; [congruence|cbn; lia].
Qed.




Lemma selected_ignores_input : forall s a e,
  selectedOption (ui s) = Some a -> isInput e = true -> step e s = Some s.
Proof.
  intros s a e Hsel He.
  destruct e; try discriminate He; cbn;
    unfold optionClick, speakNow, micEnabled; rewrite Hsel;
    try reflexivity; destruct (currentQuestion (ui s)); reflexivity.
Qed.


Lemma step_empty_level : forall levelData e,
  step e (start levelData []) = None \/
  step e (start levelData []) = Some (start levelData []).
Proof.
  intros levelData e; destruct e; cbn; auto.
Qed.

(** C7. [start] yields a session at question index 0 with score 0 and
    mistakes 0 that is not terminal.  On a level without questions that
    session is of no use: no question is current, the microphone is not
    offered, every answer submitted raises, and no sequence of events ever
    changes the session or ends it. *)
Theorem start_initial : forall levelData qs,
  let s := start levelData qs in
  level (ui s) = Some levelData /\
  questions (ui s) = qs /\
  currentQuestionIndex (ui s) = 0 /\
  score (ui s) = 0 /\
  mistakes (ui s) = 0 /\
  selectedOption (ui s) = None /\
  loading (ui s) = false /\
  log s = [] /\
  outcome s = None /\
  isTerminal s = false /\
  currentQuestion (ui (start levelData [])) = None /\
  micEnabled (start levelData []) = false /\
  (forall a, submitAnswer a (start levelData []) = None) /\
  (forall a, step (Click a) (start levelData []) = None) /\
  (forall es s', run es (start levelData []) = Some s' ->
                 s' = start levelData [] /\ isTerminal s' = false).
Proof.
  intros levelData qs; cbn.
  repeat match goal with |- _ /\ _ => split end; try reflexivity.
  induction es as [|e es IH]; intros s' Hrun.
  - injection Hrun as <-. split; reflexivity.
  - cbn [run] in Hrun.
    destruct (step_empty_level levelData e) as [He|He];
      unfold start in He; cbn in He; rewrite He in Hrun;
      [discriminate|exact (IH s' Hrun)].
Qed.


(** *** A session answered all correct *)

Lemma skipn_cons_inv : forall (A : Type) n (l : list A) x rest,
  skipn n l = x :: rest ->
  nth_error l n = Some x /\ skipn (n + 1) l = rest /\
  List.length l = n + 1 + List.length rest.
Proof.
  intros A n; induction n as [|n IH]; intros l x rest H.
  - cbn in H; subst l; cbn. repeat split; reflexivity.
  - destruct l as [|y l]; [discriminate|].
    cbn in H. destruct (IH l x rest H) as (H1 & H2 & H3).
    cbn. rewrite H3. repeat split; assumption || lia.
Qed.

Lemma all_correct_from : forall rest s,
  rest <> [] ->
  outcome s = None ->
  selectedOption (ui s) = None ->
  skipn (currentQuestionIndex (ui s)) (questions (ui s)) = rest ->
  exists s',
    run (correctAnswers rest) s = Some s' /\
    progressUpdates (log s') =
      [(user_id, levelNumber, completed,
        score (ui s) + List.length rest - 1)] /\
    score (ui s') = score (ui s) + List.length rest /\
    mistakes (ui s') = mistakes (ui s).
Proof.
  induction rest as [|q rest IH]; intros s Hne Hout Hsel Hskip; [congruence|].
  destruct (skipn_cons_inv _ _ _ _ _ Hskip) as (Hq & Hnext & Hlen).
  destruct (selectAndCheck_spec (ui s) (correct_answer q) q s Hq)
    as (s1 & Heq & Hquest & _ & _ & Hscore & Hmist & Hcase).
  unfold endsOn, failsOn in Hcase.
  rewrite String.eqb_refl in *; cbn [negb andb orb] in Hcase.
  cbn [correctAnswers map run step]. fold (correctAnswers rest).
  unfold optionClick, submitAnswer. rewrite Hsel, Heq.
  apply outcome_None_iff in Hout.
  destruct rest as [|q' rest'].
  - assert (Hl : (currentQuestionIndex (ui s) + 1
                  <? List.length (questions (ui s))) = false)
      by (apply Nat.ltb_ge; cbn in Hlen; lia).
    rewrite Hl in Hcase; cbn in Hcase.
    destruct Hcase as (_ & _ & Hp & _).
    exists s1; cbn. rewrite Hp, Hout; cbn.
    repeat split; try reflexivity; try lia.
    do 3 f_equal; lia.
  - assert (Hl : (currentQuestionIndex (ui s) + 1
                  <? List.length (questions (ui s))) = true)
      by (apply Nat.ltb_lt; cbn in Hlen; lia).
    rewrite Hl in Hcase; cbn [negb] in Hcase.
    destruct Hcase as (Hi & Hs & Hp & _).
    destruct (IH s1) as (s' & Hrun & Hp' & Hscore' & Hmist').
    + discriminate.
    + apply outcome_None_iff; congruence.
    + exact Hs.
    + rewrite Hi, Hquest; exact Hnext.
    + exists s'. split; [exact Hrun|].
      rewrite Hp', Hscore', Hmist', Hscore, Hmist. cbn [List.length].
      repeat split; try lia.
      do 3 f_equal; lia.
Qed.

(** C2, as the code behaves. On a level with N >= 1 questions, the session
    in which every click picks the correct answer ends completed, each
    correct answer adds 1 to the score shown, which ends at N; but the score
    written as the outcome is N - 1: the timer that ends the quiz runs
    [endQuiz] in the render that preceded the last increment. *)
Theorem all_correct_outcome : forall levelData qs,
  qs <> [] ->
  exists s,
    run (correctAnswers qs) (start levelData qs) = Some s /\
    outcome s = Some (Completed, List.length qs - 1) /\
    progressUpdates (log s) =
      [(user_id, levelNumber, completed, List.length qs - 1)] /\
    score (ui s) = List.length qs /\
    mistakes (ui s) = 0.
Proof.
  intros levelData qs Hne.
  destruct (all_correct_from qs (start levelData qs) Hne)
    as (s & Hrun & Hp & Hscore & Hmist); try reflexivity.
  exists s. unfold outcome. rewrite Hp.
  cbn in Hp, Hscore, Hmist.
  repeat split; assumption.
Qed.



(** *** The normalizer *)

Lemma Qgtb_true_iff : forall x y, Qgtb x y = true <-> (y < x)%Q.
Proof.
  intros x y; unfold Qgtb. rewrite negb_true_iff. split; intros H.
  - apply Qnot_le_lt. intros Hle. apply Qle_bool_iff in Hle. congruence.
  - destruct (Qle_bool x y) eqn:Hb; [|reflexivity].
    apply Qle_bool_iff in Hb. exfalso. exact (Qlt_not_le _ _ H Hb).
Qed.

Lemma Qgtb_false_iff : forall x y, Qgtb x y = false <-> (x <= y)%Q.
Proof.
  intros x y; unfold Qgtb. rewrite negb_false_iff. apply Qle_bool_iff.
Qed.

(** The loop of [findBestMatch] started from [b0]: either no option beats
    [b0], or the result is the first option of maximal score. *)
Lemma fold_considerOption : forall u l b0,
  let b := fold_left (considerOption compareTwoStrings (normalize u)) l b0 in
  (b = b0 /\ forall o, In o l -> (similarity compareTwoStrings u o <= bestScore b0)%Q)
  \/
  (exists i o,
     nth_error l i = Some o /\
     b = {| text := o; bestScore := similarity compareTwoStrings u o |} /\
     (bestScore b0 < similarity compareTwoStrings u o)%Q /\
     (forall o', In o' l ->
        (similarity compareTwoStrings u o' <= similarity compareTwoStrings u o)%Q) /\
     (forall j o', j < i -> nth_error l j = Some o' ->
        (similarity compareTwoStrings u o' < similarity compareTwoStrings u o)%Q)).
Proof.
  intros u l; induction l as [|x l IH]; intros b0; cbn zeta.
  - left; split; [reflexivity|]. intros o [].
  - cbn [fold_left].
    replace (considerOption compareTwoStrings (normalize u) b0 x)
      with (if Qgtb (similarity compareTwoStrings u x) (bestScore b0)
            then {| text := x; bestScore := similarity compareTwoStrings u x |}
            else b0) by reflexivity.
    destruct (Qgtb (similarity compareTwoStrings u x) (bestScore b0)) eqn:Hgt.
    + apply Qgtb_true_iff in Hgt.
      destruct (IH {| text := x; bestScore := similarity compareTwoStrings u x |})
        as [[Hb Hall] | (i & o & Hi & Hb & Hlt & Hall & Hfirst)];
        cbn [bestScore] in *.
      * right. exists 0, x. split; [reflexivity|]. split; [exact Hb|].
        split; [exact Hgt|]. split.
        -- intros o' [<-|Hin]; [apply Qle_refl | apply Hall; exact Hin].
        -- intros j o' Hj; lia.
      * right. exists (S i), o. split; [exact Hi|]. split; [exact Hb|].
        split; [eapply Qlt_trans; eauto|]. split.
        -- intros o' [<-|Hin]; [apply Qlt_le_weak; exact Hlt | apply Hall; exact Hin].
        -- intros [|j] o' Hj Hnth; cbn in Hnth.
           ++ injection Hnth as <-; exact Hlt.
           ++ apply (Hfirst j); [lia | exact Hnth].
    + apply Qgtb_false_iff in Hgt.
      destruct (IH b0) as [[Hb Hall] | (i & o & Hi & Hb & Hlt & Hall & Hfirst)].
      * left. split; [exact Hb|].
        intros o' [<-|Hin]; [exact Hgt | apply Hall; exact Hin].
      * right. exists (S i), o. split; [exact Hi|]. split; [exact Hb|].
        split; [exact Hlt|]. split.
        -- intros o' [<-|Hin].
           ++ apply Qlt_le_weak. eapply Qle_lt_trans; eauto.
           ++ apply Hall; exact Hin.
        -- intros [|j] o' Hj Hnth; cbn in Hnth.
           ++ injection Hnth as <-. eapply Qle_lt_trans; eauto.
           ++ apply (Hfirst j); [lia | exact Hnth].
Qed.

(** ** Further properties of the session *)

Lemma writes_app : forall l1 l2, writes (l1 ++ l2) = writes l1 ++ writes l2.
Proof. intros; unfold writes; apply filter_app. Qed.

Lemma endQuiz_writes : forall r f s,
  writes (log (endQuiz r f s)) = writes (log s) ++ endWrites r f.
Proof.
  intros r f s; unfold endQuiz, endWrites, statusOf, finalScoreOf.
  destruct f; destruct (progressError _ _ _); cbn;
    repeat (rewrite writes_app; cbn);
    repeat rewrite <- app_assoc; cbn; repeat rewrite app_nil_r; reflexivity.
Qed.

Lemma writes_nil : forall l,
  progressUpdates l = [] -> unlockUpdates l = [] -> writes l = [].
Proof.
  induction l as [|e l IH]; intros Hp Hu; [reflexivity|].
  destruct e; cbn in *; try discriminate; apply IH; assumption.
Qed.

(** What [selectAndCheck_spec] leaves out: the order of the writes and the
    verdict left on the page. *)
Lemma selectAndCheck_verdict : forall r a q s,
  currentQuestion r = Some q ->
  exists s',
    selectAndCheck r a s = Some s' /\
    if endsOn r q a then
      isCorrect (ui s') = Some (String.eqb a (correct_answer q)) /\
      feedbackText (ui s') = feedbackText (ui s) /\
      writes (log s') = writes (log s) ++ endWrites r (failsOn r q a)
    else
      isCorrect (ui s') = None /\
      feedbackText (ui s') = NoFeedback /\
      writes (log s') = writes (log s).
Proof.
  intros r a q s Hq.
  unfold selectAndCheck, checkAnswer, endsOn, failsOn.
  rewrite Hq.
  destruct (String.eqb a (correct_answer q)) eqn:Hc; cbn [negb andb orb].
  - unfold fire; cbn [callback closure]. unfold nextQuestion.
    destruct (currentQuestionIndex r + 1 <? List.length (questions r)) eqn:Hl;
      cbn [negb].
    + eexists; split; [reflexivity|]. cbn.
      rewrite writes_app; cbn. rewrite app_nil_r. repeat split; reflexivity.
    + eexists; split; [reflexivity|].
      rewrite endQuiz_ui, endQuiz_writes. cbn.
      rewrite writes_app; cbn. rewrite app_nil_r. repeat split; reflexivity.
  - destruct (mistakeLimit <=? mistakes r + 1) eqn:Hm; cbn [negb andb orb].
    + unfold fire; cbn [callback closure].
      eexists; split; [reflexivity|].
      rewrite endQuiz_ui, endQuiz_writes. cbn.
      rewrite !writes_app; cbn. rewrite !app_nil_r. repeat split; reflexivity.
    + unfold fire; cbn [callback closure]. unfold nextQuestion.
      destruct (currentQuestionIndex r + 1 <? List.length (questions r)) eqn:Hl;
        cbn [negb].
      * eexists; split; [reflexivity|]. cbn.
        rewrite writes_app; cbn. rewrite app_nil_r. repeat split; reflexivity.
      * eexists; split; [reflexivity|].
        rewrite endQuiz_ui, endQuiz_writes. cbn.
        rewrite writes_app; cbn. rewrite app_nil_r. repeat split; reflexivity.
Qed.

Lemma ledger_selectAndCheck : forall qs r a s s',
  invariant qs s -> outcome s = None -> agrees r (ui s) ->
  selectAndCheck r a s = Some s' ->
  ledger qs s'.
Proof.
  intros qs r a s s' [Hqs Hinv] Hout (Hrq & Hri & Hrs & Hrm) Hstep.
  rewrite Hout in Hinv. destruct Hinv as (Hsel & Hmis & Hidx & Hle & Hunl).
  apply outcome_None_iff in Hout.
  pose proof (writes_nil _ Hout Hunl) as Hw.
  destruct (currentQuestion r) as [q|] eqn:Hq;
    [|rewrite (selectAndCheck_undefined _ _ _ Hq) in Hstep; discriminate].
  destruct (selectAndCheck_spec r a q s Hq)
    as (s1 & Heq & Hquest & _ & _ & Hscore & Hmist & Hcase).
  destruct (selectAndCheck_verdict r a q s Hq) as (s2 & Heq2 & Hmore).
  rewrite Heq in Hstep, Heq2; injection Hstep as <-; injection Heq2 as <-.
  assert (Hlt : currentQuestionIndex r < List.length qs).
  { unfold currentQuestion in Hq. rewrite <- Hqs, <- Hrq.
    apply nth_error_Some. rewrite Hq; discriminate. }
  unfold ledger, outcome.
  destruct (endsOn r q a) eqn:Hends.
  - destruct Hcase as (Hi & Hs & Hp & Hu). destruct Hmore as (Hic & _ & Hw').
    rewrite Hp, Hout; cbn [app].
    rewrite Hw', Hw; cbn [app]. unfold endWrites.
    unfold endsOn, failsOn, mistakeLimit in *.
    destruct (String.eqb a (correct_answer q)) eqn:Hc;
      cbn [negb andb orb] in *.
    + cbn. split; [reflexivity|]. split; [lia|].
      exists true. split; [exact Hic|]. split; [discriminate|].
      apply negb_true_iff, Nat.ltb_ge in Hends. rewrite Hrq, Hqs in Hends.
      split; lia.
    + destruct (3 <=? mistakes r + 1) eqn:Hm; cbn [negb andb orb] in *.
      * cbn. split; [reflexivity|]. split; [lia|].
        exists false. split; [exact Hic|]. split; [lia|reflexivity].
      * cbn. split; [reflexivity|]. split; [lia|].
        exists false. split; [exact Hic|]. split; [lia|].
        apply negb_true_iff, Nat.ltb_ge in Hends. rewrite Hrq, Hqs in Hends.
        split; lia.
  - destruct Hcase as (Hi & Hs & Hp & Hu). destruct Hmore as (_ & _ & Hw').
    rewrite Hp, Hout. congruence.
Qed.

Lemma ledger_step : forall qs e s s',
  handledAtOnce e = true ->
  invariant qs s -> ledger qs s -> step e s = Some s' -> ledger qs s'.
Proof.
  intros qs e s s' He Hinv Hled Hstep.
  destruct e as [opt|spokenText| | | |]; try discriminate He; cbn in Hstep.
  - unfold optionClick in Hstep.
    destruct (selectedOption (ui s)) eqn:Hsel;
      [injection Hstep as <-; exact Hled|].
    apply (ledger_selectAndCheck qs (ui s) opt s s' Hinv
             (invariant_open qs s Hinv Hsel)); [repeat split|exact Hstep].
  - unfold speakNow in Hstep.
    destruct (micEnabled s) eqn:Hmic; [|injection Hstep as <-; exact Hled].
    destruct (micEnabled_true s Hmic) as ([q Hq] & Hsel & _).
    unfold onresult in Hstep. cbn [listening startListening] in Hstep.
    unfold handleSpeechResult in Hstep. rewrite Hq in Hstep.
    set (s2 := setFeedbackText (YouSaid spokenText) (startListening s)) in *.
    assert (Hinv2 : invariant qs s2) by exact Hinv.
    assert (Hout2 : outcome s2 = None)
      by exact (invariant_open qs s Hinv Hsel).
    destruct (findBestMatch compareTwoStrings spokenText (options q))
      as [matchResult|].
    + destruct (selectAndCheck (ui s) (matched matchResult) s2) as [s1|] eqn:Hsc;
        [|discriminate].
      injection Hstep as <-.
      assert (H1 : ledger qs s1).
      { apply (ledger_selectAndCheck qs (ui s) (matched matchResult) s2 s1
                 Hinv2 Hout2); [repeat split|exact Hsc]. }
      exact H1.
    + injection Hstep as <-. exact Hled.
Qed.

Lemma reachableAtOnce_ledger : forall levelData qs s,
  reachableAtOnce levelData qs s -> ledger qs s.
Proof.
  intros levelData qs s H; induction H.
  - reflexivity.
  - eapply ledger_step; eauto. eapply reachableAtOnce_invariant; eauto.
Qed.

(** A session over which every result came at once ignores clicks and
    speech once it is terminal. *)
Lemma terminal_step_unchanged : forall levelData qs s e,
  reachableAtOnce levelData qs s -> isTerminal s = true ->
  isInput e = true -> step e s = Some s.
Proof.
  intros levelData qs s e Hr Ht He.
  pose proof (reachableAtOnce_invariant _ _ _ Hr) as [_ Hinv].
  unfold isTerminal in Ht.
  destruct (outcome s) as [[o sc]|]; [|discriminate].
  destruct Hinv as (Hsel & _).
  destruct (selectedOption (ui s)) as [a|] eqn:Ha; [|congruence].
  exact (selected_ignores_input s a e Ha He).
Qed.

Lemma open_question : forall levelData qs s,
  qs <> [] -> reachable levelData qs s ->
  exists q, currentQuestion (ui s) = Some q.
Proof.
  intros levelData qs s Hne Hr.
  destruct (reachable_sound _ _ _ Hr) as (Hqs & Hidx & _).
  apply (closureOK_currentQuestion qs). split; [exact Hqs|].
  destruct Hidx as [Hidx|Hidx]; [exact Hidx|].
  destruct qs; [congruence|cbn; lia].
Qed.

(** X5. In every session in which each speech result was delivered at
    once, each answer is counted once: score plus mistakes is the number of
    questions answered, which is the index while the session is open and the
    index plus one once it is over; mistakes never exceed 3, the score never
    exceeds the number of questions, and on a level with questions the index
    shown stays below their number. *)
Theorem session_accounting : forall levelData qs s,
  reachableAtOnce levelData qs s ->
  score (ui s) + mistakes (ui s) =
    currentQuestionIndex (ui s) + (if isTerminal s then 1 else 0) /\
  mistakes (ui s) <= mistakeLimit /\
  score (ui s) <= List.length qs /\
  (qs <> [] -> currentQuestionIndex (ui s) < List.length qs).
Proof.
  intros levelData qs s Hr.
  pose proof (reachableAtOnce_invariant _ _ _ Hr) as [Hqs Hinv].
  pose proof (reachableAtOnce_ledger _ _ _ Hr) as Hled.
  unfold ledger in Hled. unfold isTerminal.
  destruct (outcome s) as [[o sc]|].
  - destruct Hinv as (_ & Hlt & _ & _ & Ho).
    destruct Hled as (_ & Hsum & _).
    destruct o; unfold mistakeLimit in *;
      repeat match goal with |- _ /\ _ => split end; try lia; intros _; lia.
  - destruct Hinv as (_ & Hm & Hidx & Hle & _).
    unfold mistakeLimit in *;
      repeat match goal with |- _ /\ _ => split end; try lia.
    intros Hne. destruct qs; [congruence|cbn in *; lia].
Qed.

(** X6. In every session in which each speech result was delivered at once
    and that ended completed, the score written is the score shown minus one
    when the last answer was correct and the score shown otherwise; with the
    mistakes it adds up to the number of questions, less one after a correct
    last answer, so it is always below the number of questions. *)
Theorem written_score_below_perfect : forall levelData qs s sc,
  reachableAtOnce levelData qs s ->
  outcome s = Some (Completed, sc) ->
  exists b,
    isCorrect (ui s) = Some b /\
    score (ui s) = sc + (if b then 1 else 0) /\
    sc + mistakes (ui s) + (if b then 1 else 0) = List.length qs /\
    sc < List.length qs.
Proof.
  intros levelData qs s sc Hr Hout.
  pose proof (reachableAtOnce_ledger _ _ _ Hr) as Hled.
  unfold ledger in Hled. rewrite Hout in Hled.
  destruct Hled as (_ & Hsum & b & Hb & Hmis & Hlast & Hsc).
  exists b. split; [exact Hb|]. split; [exact Hsc|].
  destruct b.
  - split; lia.
  - specialize (Hmis eq_refl). split; lia.
Qed.



(** X8. On a level with at least one question, no event ever raises in a
    session reached from [start]: the question of the render that handles
    the event is always defined when a handler reads it. *)
Theorem step_never_raises : forall levelData qs s e,
  qs <> [] ->
  reachable levelData qs s ->
  exists s', step e s = Some s'.
Proof.
  intros levelData qs s e Hne Hr.
  destruct (open_question levelData qs s Hne Hr) as [q Hq].
  destruct (reachable_sound _ _ _ Hr) as (_ & _ & Hlis & _).
  destruct e as [opt|spokenText| |spokenText| |]; cbn [step];
    try (eexists; reflexivity).
  - unfold optionClick, submitAnswer.
    destruct (selectedOption (ui s)); [exists s; reflexivity|].
    destruct (selectAndCheck_spec (ui s) opt q s Hq) as (s' & Heq & _).
    exists s'; exact Heq.
  - unfold speakNow.
    destruct (micEnabled s); [|exists s; reflexivity].
    unfold onresult. cbn [listening startListening].
    unfold handleSpeechResult. rewrite Hq.
    destruct (findBestMatch compareTwoStrings spokenText (options q))
      as [matchResult|]; [|eexists; reflexivity].
    destruct (selectAndCheck_spec (ui s) (matched matchResult) q
                (setFeedbackText (YouSaid spokenText) (startListening s)) Hq)
      as (s' & Heq & _).
    rewrite Heq. eexists; reflexivity.
  - unfold onresult.
    destruct (listening s) as [r|] eqn:Hl; [|exists s; reflexivity].
    destruct (closureOK_currentQuestion qs r (Hlis r eq_refl)) as [qr Hqr].
    unfold handleSpeechResult. rewrite Hqr.
    destruct (findBestMatch compareTwoStrings spokenText (options qr))
      as [matchResult|]; [|eexists; reflexivity].
    destruct (selectAndCheck_spec r (matched matchResult) qr
                (setFeedbackText (YouSaid spokenText) s) Hqr)
      as (s' & Heq & _).
    exists s'; exact Heq.
Qed.

Lemma reachableAtOnce_clicks : forall levelData qs answers s s',
  reachableAtOnce levelData qs s -> run (map Click answers) s = Some s' ->
  reachableAtOnce levelData qs s'.
Proof.
  intros levelData qs answers; induction answers as [|a rest IH];
    intros s s' Hr Hrun.
  - injection Hrun as <-; exact Hr.
  - cbn [map run] in Hrun.
    destruct (step (Click a) s) as [s1|] eqn:Hs; [|discriminate].
    apply (IH s1 s'); [|exact Hrun].
    exact (reachableAtOnce_step levelData qs s (Click a) s1 Hr eq_refl Hs).
Qed.

Lemma clicks_keep_outcome : forall levelData qs answers s s',
  reachableAtOnce levelData qs s -> run (map Click answers) s = Some s' ->
  forall x, outcome s = Some x -> outcome s' = Some x.
Proof.
  intros levelData qs answers; induction answers as [|a rest IH];
    intros s s' Hr Hrun x Hx.
  - injection Hrun as <-; exact Hx.
  - cbn [map run] in Hrun.
    assert (Ht : isTerminal s = true)
      by (unfold isTerminal; rewrite Hx; reflexivity).
    rewrite (terminal_step_unchanged levelData qs s (Click a) Hr Ht eq_refl)
      in Hrun.
    exact (IH s s' Hr Hrun x Hx).
Qed.

Lemma click_progress : forall levelData qs s a,
  qs <> [] -> reachable levelData qs s -> outcome s = None ->
  exists s1,
    step (Click a) s = Some s1 /\
    (isTerminal s1 = true \/
     (outcome s1 = None /\
      currentQuestionIndex (ui s1) = currentQuestionIndex (ui s) + 1)).
Proof.
  intros levelData qs s a Hne Hr Hout.
  destruct (open_question levelData qs s Hne Hr) as [q Hq].
  rewrite (click_is_submitAnswer _ _ _ a Hr Hout). unfold submitAnswer.
  destruct (selectAndCheck_spec (ui s) a q s Hq)
    as (s1 & Heq & _ & _ & _ & _ & _ & Hcase).
  exists s1. split; [exact Heq|].
  apply outcome_None_iff in Hout.
  destruct (endsOn (ui s) q a).
  - left. destruct Hcase as (_ & _ & Hp & _).
    unfold isTerminal, outcome. rewrite Hp, Hout; reflexivity.
  - right. destruct Hcase as (Hi & _ & Hp & _).
    split; [apply outcome_None_iff; congruence|exact Hi].
Qed.

Lemma run_clicks : forall levelData qs answers s,
  qs <> [] -> reachableAtOnce levelData qs s ->
  exists s',
    run (map Click answers) s = Some s' /\
    (isTerminal s' = true \/
     (outcome s' = None /\
      currentQuestionIndex (ui s') =
        currentQuestionIndex (ui s) + List.length answers)).
Proof.
  intros levelData qs answers; induction answers as [|a rest IH];
    intros s Hne Hr.
  - exists s. split; [reflexivity|].
    unfold isTerminal. destruct (outcome s); [left; reflexivity|].
    right; split; [reflexivity|cbn; lia].
  - cbn [map run].
    destruct (outcome s) as [x|] eqn:Hout.
    + assert (Ht : isTerminal s = true)
        by (unfold isTerminal; rewrite Hout; reflexivity).
      rewrite (terminal_step_unchanged levelData qs s (Click a) Hr Ht eq_refl).
      destruct (IH s Hne Hr) as (s' & Hrun & [Ht'|[Ho _]]).
      * exists s'; split; [exact Hrun|left; exact Ht'].
      * exists s'; split; [exact Hrun|]. left.
        pose proof (clicks_keep_outcome levelData qs rest s s' Hr
                      Hrun x Hout) as Hx.
        unfold isTerminal; rewrite Hx; reflexivity.
    + destruct (click_progress levelData qs s a Hne
                  (reachableAtOnce_reachable _ _ _ Hr) Hout)
        as (s1 & Hstep & Hcase).
      rewrite Hstep.
      assert (Hr1 : reachableAtOnce levelData qs s1)
        by exact (reachableAtOnce_step levelData qs s (Click a) s1 Hr
                    eq_refl Hstep).
      destruct (IH s1 Hne Hr1) as (s' & Hrun & Hcase').
      exists s'. split; [exact Hrun|].
      destruct Hcase as [Ht1|[Ho1 Hi1]].
      * left. unfold isTerminal in Ht1.
        destruct (outcome s1) as [x|] eqn:Hx; [|discriminate].
        pose proof (clicks_keep_outcome levelData qs rest s1 s' Hr1
                      Hrun x Hx) as Hx'.
        unfold isTerminal; rewrite Hx'; reflexivity.
      * destruct Hcase' as [Ht'|[Ho' Hi']]; [left; exact Ht'|].
        right. split; [exact Ho'|]. cbn [List.length]. lia.
Qed.

(** X9. A level with N >= 1 questions is over after N clicked answers,
    whatever they are: the run of the clicks never raises and ends in a
    terminal session. *)
Theorem level_ends_within_its_questions : forall levelData qs answers,
  qs <> [] ->
  List.length answers = List.length qs ->
  exists s,
    run (map Click answers) (start levelData qs) = Some s /\
    isTerminal s = true.
Proof.
  intros levelData qs answers Hne Hlen.
  destruct (run_clicks levelData qs answers (start levelData qs) Hne
              (reachableAtOnce_start levelData qs)) as (s & Hrun & Hcase).
  exists s. split; [exact Hrun|].
  destruct Hcase as [Ht|[Hout Hidx]]; [exact Ht|].
  exfalso.
  assert (Hr : reachable levelData qs s).
  { apply reachableAtOnce_reachable.
    eapply reachableAtOnce_clicks; [apply reachableAtOnce_start|exact Hrun]. }
  destruct (open_session_bounds_aux levelData qs s Hne Hr Hout) as [_ Hlt].
  cbn in Hidx. lia.
Qed.

(** The answer is judged alike whatever the feedback text and the pending
    recognition. *)
Lemma selectAndCheck_feedback : forall r x v s0 s s1 s2,
  ui s0 = ui (setFeedbackText v s) -> log s0 = log s ->
  selectAndCheck r x s0 = Some s1 ->
  selectAndCheck r x s = Some s2 ->
  setFeedbackText (feedbackText (ui s2)) (onend s1) = onend s2.
Proof.
  intros r x v [u0 l0 li0] [u l li] s1 s2 Hu Hl H1 H2.
  cbn in Hu, Hl. subst u0 l0.
  unfold selectAndCheck, checkAnswer in *.
  destruct (currentQuestion r) as [q|]; [|discriminate].
  destruct (String.eqb x (correct_answer q)).
  - injection H1 as <-; injection H2 as <-.
    unfold fire; cbn [callback closure]. unfold nextQuestion.
    destruct (currentQuestionIndex r + 1 <? List.length (questions r));
      [reflexivity|].
    unfold endQuiz.
    destruct (progressError levelNumber completed
                (if false then 0 else score r)); reflexivity.
  - destruct (mistakeLimit <=? mistakes r + 1).
    + injection H1 as <-; injection H2 as <-.
      unfold fire; cbn [callback closure]. unfold endQuiz.
      destruct (progressError levelNumber unlocked
                  (if true then 0 else score r)); reflexivity.
    + injection H1 as <-; injection H2 as <-.
      unfold fire; cbn [callback closure]. unfold nextQuestion.
      destruct (currentQuestionIndex r + 1 <? List.length (questions r));
        [reflexivity|].
      unfold endQuiz.
      destruct (progressError levelNumber completed
                  (if false then 0 else score r)); reflexivity.
Qed.

Lemma onend_idle : forall s, listening s = None -> onend s = s.
Proof. intros [u l li] H; cbn in H; subst li; reflexivity. Qed.

(** X10. A speech result that is delivered at once, while the engine was
    not already listening, and that [findBestMatch] resolves to an option is
    scored exactly as a click on that option: the two sessions have the same
    questions, index, score, mistakes, selection, verdict and effects, and
    differ at most in the feedback text. *)
Theorem speech_scored_like_click : forall s spokenText q matchResult,
  listening s = None ->
  selectedOption (ui s) = None ->
  currentQuestion (ui s) = Some q ->
  findBestMatch compareTwoStrings spokenText (options q) = Some matchResult ->
  exists s1 s2,
    step (Speech spokenText) s = Some s1 /\
    step (Click (matched matchResult)) s = Some s2 /\
    setFeedbackText (feedbackText (ui s2)) s1 = s2.
Proof.
  intros s spokenText q matchResult Hlis Hsel Hq Hm.
  destruct (selectAndCheck_spec (ui s) (matched matchResult) q s Hq)
    as (s2 & Heq2 & _).
  destruct (selectAndCheck_spec (ui s) (matched matchResult) q
              (setFeedbackText (YouSaid spokenText) (startListening s)) Hq)
    as (s1 & Heq1 & _).
  exists (onend s1), s2. cbn [step].
  unfold optionClick, speakNow, micEnabled, submitAnswer, onresult.
  rewrite Hsel, Hq, Hlis. cbn [listening startListening].
  unfold handleSpeechResult. rewrite Hq, Hm, Heq1.
  split; [reflexivity|]. split; [exact Heq2|].
  rewrite (selectAndCheck_feedback (ui s) (matched matchResult)
             (YouSaid spokenText)
             (setFeedbackText (YouSaid spokenText) (startListening s))
             s s1 s2 eq_refl eq_refl Heq1 Heq2).
  apply onend_idle.
  rewrite (selectAndCheck_listening _ _ _ _ Heq2). exact Hlis.
Qed.

(** X11. Speech results that match no option are not answers: after any
    number of them the session is what it was, feedback text apart; nothing
    is counted, selected or sent, and the question can still be answered.
    When the engine was not already listening, the feedback text is the
    request to try again. *)
Theorem unrecognized_speech_changes_nothing : forall q spokenTexts s,
  selectedOption (ui s) = None ->
  currentQuestion (ui s) = Some q ->
  (forall t, In t spokenTexts ->
     findBestMatch compareTwoStrings t (options q) = None) ->
  exists s',
    run (map Speech spokenTexts) s = Some s' /\
    setFeedbackText (feedbackText (ui s')) s = s' /\
    (spokenTexts <> [] -> listening s = None ->
     feedbackText (ui s') = UnrecognizedAnswer).
Proof.
  intros q spokenTexts; induction spokenTexts as [|t rest IH];
    intros s Hsel Hq Hnone.
  - exists s. split; [reflexivity|].
    split; [destruct s as [[] ? ?]; reflexivity|congruence].
  - cbn [map run step]. unfold speakNow, micEnabled.
    rewrite Hsel, Hq.
    destruct (listening s) as [r|] eqn:Hlis.
    + destruct (IH s Hsel Hq) as (s' & Hrun & Hsame & _).
      * intros t' Hin; apply Hnone; right; exact Hin.
      * exists s'. split; [exact Hrun|]. split; [exact Hsame|].
        intros _ Hno; discriminate Hno.
    + unfold onresult. cbn [listening startListening].
      unfold handleSpeechResult.
      rewrite Hq, (Hnone t (or_introl eq_refl)).
      set (s1 := onend (setFeedbackText UnrecognizedAnswer
                          (setFeedbackText (YouSaid t) (startListening s)))).
      destruct (IH s1) as (s' & Hrun & Hsame & Hfb).
      * exact Hsel.
      * exact Hq.
      * intros t' Hin; apply Hnone; right; exact Hin.
      * exists s'. split; [exact Hrun|]. split.
        -- rewrite <- Hsame. destruct s as [u l li]. cbn in Hlis. subst li.
           reflexivity.
        -- intros _ _. destruct rest as [|t' rest'].
           ++ injection Hrun as <-; reflexivity.
           ++ apply Hfb; [discriminate|reflexivity].
Qed.




(** ** Further properties of the normalizer *)

Lemma threshold_positive : (0 < threshold)%Q.
Proof. reflexivity. Qed.

(** X1. [findBestMatch] returns null exactly when every option scores below
    0.7 against the spoken text; on an empty list of options it returns
    null. *)
Theorem findBestMatch_none_iff : forall spokenText opts,
  findBestMatch compareTwoStrings spokenText opts = None <->
  (forall o, In o opts ->
     (similarity compareTwoStrings spokenText o < threshold)%Q).
Proof.
  intros u opts. unfold findBestMatch.
  destruct (fold_considerOption u opts {| text := ""; bestScore := 0%Q |})
    as [[Hb Hall] | (i & o & Hi & Hb & Hlt & Hall & _)];
    cbn [bestScore] in *; rewrite Hb; cbn [bestScore text].
  - change (Qle_bool threshold 0) with false.
    split; [intros _ o Hin|reflexivity].
    eapply Qle_lt_trans; [apply Hall; exact Hin|apply threshold_positive].
  - destruct (Qle_bool threshold (similarity compareTwoStrings u o)) eqn:Ht.
    + split; [discriminate|]. intros Hbelow. exfalso.
      apply Qle_bool_iff in Ht.
      apply (Qlt_not_le _ _ (Hbelow o (nth_error_In _ _ Hi)) Ht).
    + split; [intros _ o' Hin|reflexivity].
      eapply Qle_lt_trans; [apply Hall; exact Hin|].
      apply Qnot_le_lt. intros Hle. apply Qle_bool_iff in Hle. congruence.
Qed.

(** X2. When one option scores at least 0.7 against the spoken text and
    every other option scores below 0.7, [findBestMatch] returns that option
    with its score, wherever it stands in the list. *)
Theorem findBestMatch_unique_candidate : forall spokenText opts o,
  In o opts ->
  (threshold <= similarity compareTwoStrings spokenText o)%Q ->
  (forall o', In o' opts -> o' <> o ->
     (similarity compareTwoStrings spokenText o' < threshold)%Q) ->
  findBestMatch compareTwoStrings spokenText opts =
    Some {| matched := o;
            matchScore := similarity compareTwoStrings spokenText o |}.
Proof.
  intros u opts o Hin Hge Hothers. unfold findBestMatch.
  destruct (fold_considerOption u opts {| text := ""; bestScore := 0%Q |})
    as [[Hb Hall] | (i & o1 & Hi & Hb & Hlt & Hall & _)];
    cbn [bestScore] in *.
  - exfalso. specialize (Hall o Hin).
    apply (Qlt_not_le _ _ threshold_positive).
    eapply Qle_trans; eauto.
  - assert (o1 = o) as ->.
    { destruct (string_dec o1 o) as [Heq|Hne]; [exact Heq|]. exfalso.
      pose proof (Hothers o1 (nth_error_In _ _ Hi) Hne) as Hbelow.
      apply (Qlt_not_le _ _ Hbelow).
      eapply Qle_trans; [exact Hge|apply Hall; exact Hin]. }
    rewrite Hb; cbn [bestScore text].
    apply Qle_bool_iff in Hge. rewrite Hge. reflexivity.
Qed.

(** X4. With a similarity function that scores equal strings 1, a spoken
    text that equals one of the options up to case and surrounding white
    space is always matched: [findBestMatch] returns one of the options,
    with a score of at least 1. *)
Theorem exact_utterance_is_matched : forall spokenText opts o,
  (forall x, (compareTwoStrings x x == 1)%Q) ->
  In o opts ->
  normalize o = normalize spokenText ->
  exists matchResult,
    findBestMatch compareTwoStrings spokenText opts = Some matchResult /\
    In (matched matchResult) opts /\
    (1 <= matchScore matchResult)%Q.
Proof.
  intros u opts o Hrefl Hin Hnorm. unfold findBestMatch.
  assert (Hone : (similarity compareTwoStrings u o == 1)%Q).
  { unfold similarity. rewrite Hnorm. apply Hrefl. }
  destruct (fold_considerOption u opts {| text := ""; bestScore := 0%Q |})
    as [[Hb Hall] | (i & o1 & Hi & Hb & Hlt & Hall & _)];
    cbn [bestScore] in *.
  - exfalso. specialize (Hall o Hin). rewrite Hone in Hall.
    unfold Qle in Hall; cbn in Hall; lia.
  - rewrite Hb; cbn [bestScore text].
    assert (Hge : (1 <= similarity compareTwoStrings u o1)%Q).
    { rewrite <- Hone. apply Hall; exact Hin. }
    assert (Ht : Qle_bool threshold (similarity compareTwoStrings u o1) = true).
    { apply Qle_bool_iff. eapply Qle_trans; [|exact Hge].
      unfold Qle; cbn; lia. }
    rewrite Ht. eexists. split; [reflexivity|].
    split; [exact (nth_error_In _ _ Hi)|exact Hge].
Qed.


(** ** What a session leaves in the progress table *)

Lemma persist_writes : forall l t, persist l t = persist (writes l) t.
Proof.
  unfold persist, writes.
  induction l as [|e l IH]; intros t; [reflexivity|].
  destruct e; cbn [filter isWrite fold_left]; apply IH.
Qed.

(** What an event leaves in the log of an open session: nothing to store
    when the session stays open, the writes of [endQuiz] in the render of
    the event when it ends the session. *)
Lemma step_from_open_writes : forall levelData qs s e s',
  reachable levelData qs s -> outcome s = None -> step e s = Some s' ->
  writes (log s) = [] /\
  ((outcome s' = None /\ writes (log s') = []) \/
   (exists f : bool,
      outcome s' = Some (if f then FailedByMistakes else Completed,
                         finalScoreOf (renderOf e s) f) /\
      writes (log s') = endWrites (renderOf e s) f)).
Proof.
  intros levelData qs s e s' Hr Hout Hstep.
  destruct (reachable_sound _ _ _ Hr) as (_ & _ & _ & Hopen).
  destruct (Hopen Hout) as (_ & _ & Hunl).
  pose proof Hout as Hp0. apply outcome_None_iff in Hp0.
  pose proof (writes_nil _ Hp0 Hunl) as Hw.
  split; [exact Hw|].
  destruct (step_cases e s s' Hstep) as [Hsame|(a & s0 & s1 & H0 & Hsc & H1)].
  - left. rewrite (sameAnswers_outcome _ _ Hsame).
    destruct Hsame as (Hl & _). rewrite Hl. split; assumption.
  - destruct (selectAndCheck_question _ _ _ _ Hsc) as [q Hq].
    destruct (selectAndCheck_spec (renderOf e s) a q s0 Hq)
      as (s1' & Heq & _ & _ & _ & _ & _ & Hcase).
    destruct (selectAndCheck_verdict (renderOf e s) a q s0 Hq)
      as (s1'' & Heq' & Hmore).
    rewrite Heq in Hsc, Heq'. injection Hsc as ->. injection Heq' as <-.
    destruct H0 as (Hl0 & _). destruct H1 as (Hl1 & _).
    rewrite Hl0 in Hcase, Hmore. rewrite Hp0 in Hcase. rewrite Hw in Hmore.
    cbn [app] in Hcase, Hmore. unfold outcome. rewrite Hl1.
    destruct (endsOn (renderOf e s) q a).
    + right. exists (failsOn (renderOf e s) q a).
      destruct Hcase as (_ & _ & Hp & _). destruct Hmore as (_ & _ & Hw').
      rewrite Hp, Hw'. split; [|reflexivity].
      destruct (failsOn (renderOf e s) q a); reflexivity.
    + left. destruct Hcase as (_ & _ & Hp & _).
      destruct Hmore as (_ & _ & Hw').
      rewrite Hp, Hw'. split; reflexivity.
Qed.

(** X13. The table after the effects of a session reached from [start], up
    to and including the event that ends it: an open session has stored
    nothing; a session whose progress write was rejected has stored nothing;
    a failed session has rewritten the rows of its level to 'unlocked' with
    high score 0; a completed session has rewritten the rows of its level to
    'completed' with the score written, and then, unless that write was
    rejected too, the status of the rows of the next level to 'unlocked'. *)
Theorem persist_session : forall levelData qs s e s' t,
  reachable levelData qs s ->
  outcome s = None ->
  step e s = Some s' ->
  persist (log s) t = t /\
  persist (log s') t =
    match outcome s' with
    | None => t
    | Some (o, sc) =>
        match progressError levelNumber (statusOfOutcome o) sc with
        | Some _ => t
        | None =>
            match o with
            | Completed =>
                match unlockError (levelNumber + 1)%Z with
                | None =>
                    updateStatus user_id (levelNumber + 1)%Z unlocked
                      (updateProgress user_id levelNumber completed sc t)
                | Some _ => updateProgress user_id levelNumber completed sc t
                end
            | FailedByMistakes =>
                updateProgress user_id levelNumber unlocked 0 t
            end
        end
    end.
Proof.
  intros levelData qs s e s' t Hr Hout Hstep.
  destruct (step_from_open_writes levelData qs s e s' Hr Hout Hstep)
    as (Hw & [[Ho Hw']|(f & Ho & Hw')]).
  - rewrite (persist_writes (log s)), (persist_writes (log s')), Hw, Hw', Ho.
    split; reflexivity.
  - rewrite (persist_writes (log s)), (persist_writes (log s')), Hw, Hw', Ho.
    split; [reflexivity|].
    unfold endWrites, statusOf, finalScoreOf.
    destruct f; cbn.
    + destruct (progressError levelNumber unlocked 0); reflexivity.
    + destruct (progressError levelNumber completed
                  (score (renderOf e s))); cbn; [reflexivity|].
      destruct (unlockError (levelNumber + 1)%Z); reflexivity.
Qed.

Lemma rowMatches_true : forall u n r,
  rowMatches u n r = true -> row_user_id r = u /\ row_level_number r = n.
Proof.
  intros u n r H; unfold rowMatches in H.
  apply andb_true_iff in H; destruct H as [Hu Hn].
  split; [apply String.eqb_eq; exact Hu|apply Z.eqb_eq; exact Hn].
Qed.

Lemma selectProgress_map : forall u f t,
  (forall r, row_user_id (f r) = row_user_id r) ->
  selectProgress u (map f t) = map f (selectProgress u t).
Proof.
  intros u f t Hf; induction t as [|r t IH]; [reflexivity|].
  cbn [map selectProgress filter]. rewrite Hf.
  fold (selectProgress u (map f t)). fold (selectProgress u t). rewrite IH.
  destruct (String.eqb (row_user_id r) u); reflexivity.
Qed.

Lemma getLevelProgress_map : forall f l m,
  (forall r, row_level_number (f r) = row_level_number r) ->
  getLevelProgress (map f l) m = option_map f (getLevelProgress l m).
Proof.
  intros f l m Hf; induction l as [|r l IH]; [reflexivity|].
  cbn [map getLevelProgress find]. rewrite Hf.
  fold (getLevelProgress (map f l) m). fold (getLevelProgress l m).
  rewrite IH.
  destruct (Z.eqb (row_level_number r) m); reflexivity.
Qed.

Lemma getLevelProgress_found : forall u t m p,
  getLevelProgress (selectProgress u t) m = Some p ->
  row_user_id p = u /\ row_level_number p = m.
Proof.
  intros u t m p H. unfold getLevelProgress in H.
  apply find_some in H. destruct H as [Hin Hm].
  unfold selectProgress in Hin. apply filter_In in Hin.
  destruct Hin as [_ Hu].
  split; [apply String.eqb_eq; exact Hu|apply Z.eqb_eq; exact Hm].
Qed.

Lemma lookup_updateProgress : forall u n st sc t m,
  getLevelProgress (selectProgress u (updateProgress u n st sc t)) m =
    if (m =? n)%Z
    then option_map (fun _ => mkProgressRow u n st sc)
           (getLevelProgress (selectProgress u t) m)
    else getLevelProgress (selectProgress u t) m.
Proof.
  intros u n st sc t m. unfold updateProgress.
  rewrite selectProgress_map
    by (intros r; destruct (rowMatches u n r); reflexivity).
  rewrite getLevelProgress_map
    by (intros r; destruct (rowMatches u n r); reflexivity).
  destruct (getLevelProgress (selectProgress u t) m) as [p|] eqn:Hp;
    [|destruct (m =? n)%Z; reflexivity].
  destruct (getLevelProgress_found _ _ _ _ Hp) as [Hu Hm].
  cbn [option_map]. unfold rowMatches.
  rewrite Hu, Hm, String.eqb_refl; cbn [andb].
  destruct (m =? n)%Z eqn:Hmn; [|reflexivity].
  apply Z.eqb_eq in Hmn; subst; reflexivity.
Qed.

Lemma lookup_updateStatus : forall u n st t m,
  getLevelProgress (selectProgress u (updateStatus u n st t)) m =
    if (m =? n)%Z
    then option_map (fun p => mkProgressRow u n st (row_high_score p))
           (getLevelProgress (selectProgress u t) m)
    else getLevelProgress (selectProgress u t) m.
Proof.
  intros u n st t m. unfold updateStatus.
  rewrite selectProgress_map
    by (intros r; destruct (rowMatches u n r); reflexivity).
  rewrite getLevelProgress_map
    by (intros r; destruct (rowMatches u n r); reflexivity).
  destruct (getLevelProgress (selectProgress u t) m) as [p|] eqn:Hp;
    [|destruct (m =? n)%Z; reflexivity].
  destruct (getLevelProgress_found _ _ _ _ Hp) as [Hu Hm].
  cbn [option_map]. unfold rowMatches.
  rewrite Hu, Hm, String.eqb_refl; cbn [andb].
  destruct (m =? n)%Z eqn:Hmn; [|reflexivity].
  apply Z.eqb_eq in Hmn; subst; reflexivity.
Qed.

Lemma other_user_updateProgress : forall u u' n st sc t,
  u' <> u ->
  selectProgress u' (updateProgress u n st sc t) = selectProgress u' t.
Proof.
  intros u u' n st sc t Hne; induction t as [|r t IH]; [reflexivity|].
  cbn [updateProgress map selectProgress filter].
  fold (updateProgress u n st sc t). fold (selectProgress u' t).
  fold (selectProgress u' (updateProgress u n st sc t)). rewrite IH.
  destruct (rowMatches u n r) eqn:Hm; [|reflexivity].
  destruct (rowMatches_true _ _ _ Hm) as [Hu _].
  cbn [row_user_id]. rewrite Hu.
  destruct (String.eqb u u') eqn:Hx;
    [apply String.eqb_eq in Hx; congruence|reflexivity].
Qed.

Lemma other_user_updateStatus : forall u u' n st t,
  u' <> u ->
  selectProgress u' (updateStatus u n st t) = selectProgress u' t.
Proof.
  intros u u' n st t Hne; induction t as [|r t IH]; [reflexivity|].
  cbn [updateStatus map selectProgress filter].
  fold (updateStatus u n st t). fold (selectProgress u' t).
  fold (selectProgress u' (updateStatus u n st t)). rewrite IH.
  destruct (rowMatches u n r) eqn:Hm; [|reflexivity].
  destruct (rowMatches_true _ _ _ Hm) as [Hu _].
  cbn [row_user_id]. rewrite Hu.
  destruct (String.eqb u u') eqn:Hx;
    [apply String.eqb_eq in Hx; congruence|reflexivity].
Qed.


Lemma persist_completed : forall levelData qs s e s' sc t,
  reachable levelData qs s ->
  outcome s = None ->
  step e s = Some s' ->
  outcome s' = Some (Completed, sc) ->
  progressError levelNumber completed sc = None ->
  unlockError (levelNumber + 1)%Z = None ->
  persist (log s') t =
    updateStatus user_id (levelNumber + 1)%Z unlocked
      (updateProgress user_id levelNumber completed sc t).
Proof.
  intros levelData qs s e s' sc t Hr Hout Hstep Hout' Hacc Hacc'.
  destruct (step_from_open_writes levelData qs s e s' Hr Hout Hstep)
    as (_ & [[Ho _]|(f & Ho & Hw')]); [congruence|].
  rewrite Hout' in Ho. destruct f; [discriminate Ho|].
  injection Ho as Hsc. unfold finalScoreOf in Hsc.
  rewrite persist_writes, Hw'. unfold endWrites, statusOf, finalScoreOf.
  rewrite <- Hsc, Hacc. cbn. rewrite Hacc, Hacc'. reflexivity.
Qed.

Lemma persist_failed : forall levelData qs s e s' sc t,
  reachable levelData qs s ->
  outcome s = None ->
  step e s = Some s' ->
  outcome s' = Some (FailedByMistakes, sc) ->
  progressError levelNumber unlocked sc = None ->
  sc = 0 /\
  persist (log s') t = updateProgress user_id levelNumber unlocked 0 t.
Proof.
  intros levelData qs s e s' sc t Hr Hout Hstep Hout' Hacc.
  destruct (step_from_open_writes levelData qs s e s' Hr Hout Hstep)
    as (_ & [[Ho _]|(f & Ho & Hw')]); [congruence|].
  rewrite Hout' in Ho. destruct f; [|discriminate Ho].
  injection Ho as Hsc. unfold finalScoreOf in Hsc. subst sc.
  split; [reflexivity|].
  rewrite persist_writes, Hw'. unfold endWrites, statusOf, finalScoreOf.
  cbn. rewrite Hacc. reflexivity.
Qed.

(** X14. After the event that ends a session as completed, when the
    persistence service accepted both writes, the user's row of the level,
    if there is one, reads 'completed' with the score written, whatever it
    read before, a higher earlier high score included; the user's row of the
    next level, if there is one, reads 'unlocked' with its high score kept,
    even if it read 'completed'; no row is created, and the other levels and
    the other users are left as they were. *)
Theorem completed_session_rows : forall levelData qs s e s' sc t,
  reachable levelData qs s ->
  outcome s = None ->
  step e s = Some s' ->
  outcome s' = Some (Completed, sc) ->
  progressError levelNumber completed sc = None ->
  unlockError (levelNumber + 1)%Z = None ->
  (forall m,
     getLevelProgress (selectProgress user_id (persist (log s') t)) m =
       if (m =? levelNumber)%Z then
         option_map
           (fun _ => mkProgressRow user_id levelNumber completed sc)
           (getLevelProgress (selectProgress user_id t) m)
       else if (m =? levelNumber + 1)%Z then
         option_map
           (fun p => mkProgressRow user_id (levelNumber + 1)%Z unlocked
                       (row_high_score p))
           (getLevelProgress (selectProgress user_id t) m)
       else getLevelProgress (selectProgress user_id t) m) /\
  (forall u', u' <> user_id ->
     selectProgress u' (persist (log s') t) = selectProgress u' t).
Proof.
  intros levelData qs s e s' sc t Hr Hout Hstep Hout' Hacc Hacc'.
  rewrite (persist_completed levelData qs s e s' sc t Hr Hout Hstep Hout'
             Hacc Hacc').
  split.
  - intros m. rewrite lookup_updateStatus, lookup_updateProgress.
    destruct (m =? levelNumber)%Z eqn:Hm;
      destruct (m =? levelNumber + 1)%Z eqn:Hm1; try reflexivity.
    apply Z.eqb_eq in Hm, Hm1. lia.
  - intros u' Hne.
    rewrite other_user_updateStatus, other_user_updateProgress;
      [reflexivity|exact Hne|exact Hne].
Qed.

(** X15. After the event that ends a session as completed, when the
    persistence service accepted both writes, a click on the card of the
    next level on the level selection page opens its quiz, whatever the
    table held before. *)
Theorem completed_level_opens_next : forall levelData qs s e s' sc t next,
  reachable levelData qs s ->
  outcome s = None ->
  step e s = Some s' ->
  outcome s' = Some (Completed, sc) ->
  progressError levelNumber completed sc = None ->
  unlockError (levelNumber + 1)%Z = None ->
  level_number next = (levelNumber + 1)%Z ->
  handleLevelClick (selectProgress user_id (persist (log s') t)) next =
    OpenQuiz (levelNumber + 1)%Z.
Proof.
  intros levelData qs s e s' sc t next Hr Hout Hstep Hout' Hacc Hacc' Hnext.
  rewrite (persist_completed levelData qs s e s' sc t Hr Hout Hstep Hout'
             Hacc Hacc').
  unfold handleLevelClick. rewrite Hnext, lookup_updateStatus, Z.eqb_refl.
  destruct (getLevelProgress
              (selectProgress user_id
                 (updateProgress user_id levelNumber completed sc t))
              (levelNumber + 1)%Z); reflexivity.
Qed.

(** X16. After the event that ends a session as failed, when the
    persistence service accepted the progress write, the user's row of the
    level, if there is one, reads 'unlocked' with high score 0, whatever it
    read before, 'completed' with a high score included; the other levels,
    the next one among them, and the other users are left as they were. *)
Theorem failed_session_rows : forall levelData qs s e s' sc t,
  reachable levelData qs s ->
  outcome s = None ->
  step e s = Some s' ->
  outcome s' = Some (FailedByMistakes, sc) ->
  progressError levelNumber unlocked sc = None ->
  (forall m,
     getLevelProgress (selectProgress user_id (persist (log s') t)) m =
       if (m =? levelNumber)%Z then
         option_map (fun _ => mkProgressRow user_id levelNumber unlocked 0)
           (getLevelProgress (selectProgress user_id t) m)
       else getLevelProgress (selectProgress user_id t) m) /\
  (forall u', u' <> user_id ->
     selectProgress u' (persist (log s') t) = selectProgress u' t).
Proof.
  intros levelData qs s e s' sc t Hr Hout Hstep Hout' Hacc.
  destruct (persist_failed levelData qs s e s' sc t Hr Hout Hstep Hout' Hacc)
    as [_ Hp].
  rewrite Hp.
  split.
  - intros m. apply lookup_updateProgress.
  - intros u' Hne. apply other_user_updateProgress; exact Hne.
Qed.

End QuizPage.

(** *** The empty utterance *)

Lemma isWhiteSpace_lowerChar : forall c,
  JsString.isWhiteSpace (JsString.lowerChar c) = JsString.isWhiteSpace c.
Proof.
  intros c; destruct c as [[] [] [] [] [] [] [] []]; reflexivity.
Qed.

Lemma isBlank_toLowerCase : forall s,
  JsString.isBlank (JsString.toLowerCase s) = JsString.isBlank s.
Proof.
  induction s as [|c s IH]; [reflexivity|].
  cbn [JsString.toLowerCase JsString.isBlank].
  rewrite isWhiteSpace_lowerChar, IH; reflexivity.
Qed.

Lemma isBlank_trimStart : forall s,
  JsString.isBlank (JsString.trimStart s) = JsString.isBlank s.
Proof.
  induction s as [|c s IH]; [reflexivity|].
  cbn [JsString.trimStart].
  destruct (JsString.isWhiteSpace c) eqn:Hc.
  - rewrite IH. cbn [JsString.isBlank]. rewrite Hc; reflexivity.
  - reflexivity.
Qed.

Lemma isBlank_trimEnd : forall s,
  JsString.isBlank (JsString.trimEnd s) = JsString.isBlank s.
Proof.
  induction s as [|c s IH]; [reflexivity|].
  cbn [JsString.trimEnd JsString.isBlank]. rewrite <- IH.
  destruct (JsString.trimEnd s) as [|c' s'].
  - destruct (JsString.isWhiteSpace c) eqn:Hc; cbn; rewrite ?Hc; reflexivity.
  - reflexivity.
Qed.

Lemma isBlank_normalize : forall s,
  JsString.isBlank (normalize s) = JsString.isBlank s.
Proof.
  intros s; unfold normalize, JsString.trim.
  rewrite isBlank_trimEnd, isBlank_trimStart. apply isBlank_toLowerCase.
Qed.

Lemma removeWhiteSpace_blank : forall s,
  JsString.isBlank s = true -> StringSimilarity.removeWhiteSpace s = "".
Proof.
  induction s as [|c s IH]; [reflexivity|].
  cbn. destruct (JsString.isWhiteSpace c); cbn; [exact IH | discriminate].
Qed.

Lemma removeWhiteSpace_not_blank : forall s,
  JsString.isBlank s = false -> StringSimilarity.removeWhiteSpace s <> "".
Proof.
  induction s as [|c s IH]; [discriminate|].
  cbn. destruct (JsString.isWhiteSpace c); cbn; [exact IH | discriminate].
Qed.

(** The score of the empty string against [x] is 1 when [x] is blank and 0
    otherwise. *)
Lemma compareTwoStrings_empty : forall x,
  StringSimilarity.compareTwoStrings "" x =
  if JsString.isBlank x then 1%Q else 0%Q.
Proof.
  intros x; unfold StringSimilarity.compareTwoStrings.
  cbn [StringSimilarity.removeWhiteSpace].
  destruct (JsString.isBlank x) eqn:Hb.
  - rewrite (removeWhiteSpace_blank x Hb); reflexivity.
  - pose proof (removeWhiteSpace_not_blank x Hb) as Hne.
    destruct (StringSimilarity.removeWhiteSpace x); [congruence|reflexivity].
Qed.

Lemma similarity_empty : forall o,
  similarity StringSimilarity.compareTwoStrings "" o =
  if JsString.isBlank o then 1%Q else 0%Q.
Proof.
  intros o; unfold similarity.
  change (normalize "") with "".
  rewrite compareTwoStrings_empty, isBlank_normalize; reflexivity.
Qed.
(** C9, amended. On the empty utterance [findBestMatch] returns null exactly
    when no option is blank, that is empty or made of white space only, the
    no-break space included; a blank option scores 1 against the empty
    utterance and is returned as the match. *)
Theorem findBestMatch_empty_utterance : forall opts,
  findBestMatch StringSimilarity.compareTwoStrings "" opts = None <->
  (forall o, In o opts -> JsString.isBlank o = false).
Proof.
  intros opts. unfold findBestMatch.
  destruct (fold_considerOption StringSimilarity.compareTwoStrings "" opts
              {| text := ""; bestScore := 0%Q |})
    as [[Hb Hall] | (i & o & Hi & Hb & Hlt & _)]; cbn [bestScore] in *.
  - rewrite Hb; cbn. split; [intros _|reflexivity].
    intros o Hin. specialize (Hall o Hin). rewrite similarity_empty in Hall.
    destruct (JsString.isBlank o); [|reflexivity].
    unfold Qle in Hall; cbn in Hall; lia.
  - rewrite Hb; cbn [bestScore text].
    rewrite similarity_empty in *.
    destruct (JsString.isBlank o) eqn:Hblank.
    + cbn. split; [discriminate|].
      intros Hall. apply nth_error_In in Hi.
      rewrite (Hall o Hi) in Hblank; discriminate.
    + unfold Qlt in Hlt; cbn in Hlt; lia.
Qed.

(** *** Letter case and surrounding white space *)

Lemma capitalOf_lowerChar : forall C c,
  capitalOf C c = true ->
  JsString.lowerChar C = c /\ JsString.lowerChar c = c.
Proof.
  intros C c H. unfold capitalOf in H. apply andb_true_iff in H.
  destruct H as [Hup Heq]. apply Nat.eqb_eq in Heq.
  assert (Hc : c = ascii_of_nat (nat_of_ascii C + 32))
    by (rewrite <- Heq; symmetry; apply ascii_nat_embedding).
  subst c. clear Heq. revert Hup.
  destruct C as [[] [] [] [] [] [] [] []]; vm_compute; intros Hup;
    try discriminate Hup; split; reflexivity.
Qed.

Lemma sameLetter_lowerChar : forall c c',
  sameLetter c c' = true -> JsString.lowerChar c = JsString.lowerChar c'.
Proof.
  intros c c' H. unfold sameLetter in H.
  apply orb_true_iff in H. destruct H as [H|H];
    [apply orb_true_iff in H; destruct H as [H|H]|].
  - apply Ascii.eqb_eq in H. subst c'; reflexivity.
  - destruct (capitalOf_lowerChar c c' H) as [H1 H2]. congruence.
  - destruct (capitalOf_lowerChar c' c H) as [H1 H2]. congruence.
Qed.

Lemma sameLetters_toLowerCase : forall s s',
  sameLetters s s' = true -> JsString.toLowerCase s = JsString.toLowerCase s'.
Proof.
  induction s as [|c s IH]; intros [|c' s'] H; try discriminate H;
    [reflexivity|].
  cbn [sameLetters] in H. apply andb_true_iff in H. destruct H as [Hc Hs].
  cbn [JsString.toLowerCase].
  rewrite (sameLetter_lowerChar c c' Hc), (IH s' Hs). reflexivity.
Qed.

Lemma toLowerCase_append : forall s t,
  JsString.toLowerCase (s ++ t)%string =
  (JsString.toLowerCase s ++ JsString.toLowerCase t)%string.
Proof.
  induction s as [|c s IH]; intros t; [reflexivity|].
  cbn. rewrite IH. reflexivity.
Qed.

Lemma trimStart_blank_append : forall l s,
  JsString.isBlank l = true ->
  JsString.trimStart (l ++ s)%string = JsString.trimStart s.
Proof.
  induction l as [|c l IH]; intros s H; [reflexivity|].
  cbn [JsString.isBlank] in H. apply andb_true_iff in H. destruct H as [Hc Hl].
  cbn. rewrite Hc. exact (IH s Hl).
Qed.

Lemma trimEnd_blank : forall r,
  JsString.isBlank r = true -> JsString.trimEnd r = EmptyString.
Proof.
  induction r as [|c r IH]; intros H; [reflexivity|].
  cbn [JsString.isBlank] in H. apply andb_true_iff in H. destruct H as [Hc Hr].
  cbn [JsString.trimEnd]. rewrite (IH Hr), Hc. reflexivity.
Qed.

Lemma trimEnd_append_blank : forall s r,
  JsString.isBlank r = true ->
  JsString.trimEnd (s ++ r)%string = JsString.trimEnd s.
Proof.
  induction s as [|c s IH]; intros r H.
  - cbn. exact (trimEnd_blank r H).
  - cbn [String.append JsString.trimEnd]. rewrite (IH r H). reflexivity.
Qed.

Lemma trim_append_blank : forall s r,
  JsString.isBlank r = true ->
  JsString.trim (s ++ r)%string = JsString.trim s.
Proof.
  intros s r H. unfold JsString.trim.
  induction s as [|c s IH].
  - cbn [String.append JsString.trimStart].
    assert (Hb : JsString.isBlank (JsString.trimStart r) = true)
      by (rewrite isBlank_trimStart; exact H).
    exact (trimEnd_blank _ Hb).
  - cbn [String.append JsString.trimStart].
    destruct (JsString.isWhiteSpace c); [exact IH|].
    exact (trimEnd_append_blank (String c s) r H).
Qed.

(** Padding a text with white space and changing the case of its letters
    does not change its lower-cased and trimmed form. *)
Lemma normalize_padded : forall s t l r,
  JsString.isBlank l = true -> JsString.isBlank r = true ->
  sameLetters s t = true ->
  JsString.trim (JsString.toLowerCase (l ++ t ++ r)%string) =
  JsString.trim (JsString.toLowerCase s).
Proof.
  intros s t l r Hl Hr Hst.
  rewrite !toLowerCase_append, <- (sameLetters_toLowerCase s t Hst).
  unfold JsString.trim at 1.
  rewrite trimStart_blank_append by (rewrite isBlank_toLowerCase; exact Hl).
  fold (JsString.trim (JsString.toLowerCase s ++ JsString.toLowerCase r)%string).
  apply trim_append_blank. rewrite isBlank_toLowerCase; exact Hr.
Qed.

(** C3. For every spoken text and every non-empty list of options, with the
    score of an option being the similarity of the lower-cased and trimmed
    spoken text and the lower-cased and trimmed option: there is a first
    option of maximal score, and [findBestMatch] returns that option with
    its score when the score is at least 0.7 and returns null otherwise.
    Lower-casing and trimming are what they say: neither the answer nor any
    score changes when the spoken text or an option is padded with white
    space or has the case of its letters changed. *)
Theorem findBestMatch_first_maximum :
  forall (compareTwoStrings : string -> string -> Q) spokenText opts,
  opts <> [] ->
  let prepared := fun s => JsString.trim (JsString.toLowerCase s) in
  let sc := fun u o => compareTwoStrings (prepared u) (prepared o) in
  (exists i o,
     nth_error opts i = Some o /\
     (forall o', In o' opts -> (sc spokenText o' <= sc spokenText o)%Q) /\
     (forall j o', j < i -> nth_error opts j = Some o' ->
        (sc spokenText o' < sc spokenText o)%Q) /\
     findBestMatch compareTwoStrings spokenText opts =
       if Qle_bool threshold (sc spokenText o)
       then Some {| matched := o; matchScore := sc spokenText o |}
       else None) /\
  (forall l r t,
     JsString.isBlank l = true -> JsString.isBlank r = true ->
     sameLetters spokenText t = true ->
     findBestMatch compareTwoStrings (l ++ t ++ r)%string opts =
     findBestMatch compareTwoStrings spokenText opts) /\
  (forall o l r t,
     JsString.isBlank l = true -> JsString.isBlank r = true ->
     sameLetters o t = true ->
     sc spokenText (l ++ t ++ r)%string = sc spokenText o).
Proof.
  intros cmp u opts Hne prepared sc.
  split; [|split].
  - unfold findBestMatch.
    destruct (fold_considerOption cmp u opts {| text := ""; bestScore := 0%Q |})
      as [[Hb Hall] | (i & o & Hi & Hb & Hlt & Hall & Hfirst)];
      cbn [bestScore] in *.
    + destruct opts as [|x opts']; [congruence|].
      destruct (fold_considerOption cmp u (x :: opts')
                  {| text := "";
                     bestScore := (similarity cmp u x - 1)%Q |})
        as [[_ Hall'] | (i & o & Hi & _ & _ & Hmax & Hfirst)];
        cbn [bestScore] in *.
      * exfalso. specialize (Hall' x (or_introl eq_refl)).
        apply (Qle_minus_iff _ _) in Hall'.
        assert (Heq : (similarity cmp u x - 1
                       + - similarity cmp u x == -1 # 1)%Q) by ring.
        rewrite Heq in Hall'. unfold Qle in Hall'; cbn in Hall'; lia.
      * exists i, o. split; [exact Hi|]. split; [exact Hmax|].
        split; [exact Hfirst|].
        rewrite Hb; cbn [bestScore text].
        assert (Ho : (similarity cmp u o <= 0)%Q).
        { apply Hall. eapply nth_error_In; eauto. }
        change (sc u o) with (similarity cmp u o).
        destruct (Qle_bool threshold (similarity cmp u o)) eqn:Ht.
        -- exfalso. apply Qle_bool_iff in Ht.
           pose proof (Qle_trans _ _ _ Ht Ho) as H.
           unfold Qle in H; cbn in H; lia.
        -- reflexivity.
    + exists i, o. split; [exact Hi|]. split; [exact Hall|].
      split; [exact Hfirst|].
      rewrite Hb; reflexivity.
  - intros l r t Hl Hr Ht. unfold findBestMatch, normalize.
    rewrite (normalize_padded u t l r Hl Hr Ht). reflexivity.
  - intros o l r t Hl Hr Ht. unfold sc, prepared.
    rewrite (normalize_padded o t l r Hl Hr Ht). reflexivity.
Qed.

(** ** Concrete sessions *)

(** The page of the sample user on the sample level, with a persistence
    service that accepts the writes. *)
Local Notation "'runAccepting'" :=
  (run Sample.user 1%Z Sample.accepting StringSimilarity.compareTwoStrings).
Local Notation "'submitAccepting'" :=
  (submitAnswer Sample.user 1%Z Sample.accepting).
Local Notation "'stepAccepting'" :=
  (step Sample.user 1%Z Sample.accepting StringSimilarity.compareTwoStrings).
Local Notation "'reachableAccepting'" :=
  (reachable Sample.user 1%Z Sample.accepting
     StringSimilarity.compareTwoStrings).

Lemma reachable_by_run : forall levelData qs es s,
  runAccepting es (start levelData qs) = Some s ->
  reachableAccepting levelData qs s.
Proof.
  intros levelData qs es s Hrun.
  eapply reachable_run; [apply reachable_start | exact Hrun].
Qed.

(** The learner presses the microphone on the first of five questions, then
    clicks two wrong options; the engine then delivers 'bill', a wrong
    answer to the first question: the third wrong answer leaves the session
    open with one mistake, back on the second question. *)
Lemma late_result_third_mistake_witness :
  exists s,
    runAccepting [MicPress; Click "Bill"; Click "Menu"]
      (start Sample.restaurant Sample.fiveQuestions) = Some s /\
    mistakes (ui s) = 2 /\
    currentQuestionIndex (ui s) = 2 /\
    exists s',
      stepAccepting (Result "bill") s = Some s' /\
      outcome s' = None /\
      isTerminal s' = false /\
      mistakes (ui s') = 0 + 1 /\
      mistakes (ui s') < mistakes (ui s) + 1 /\
      currentQuestionIndex (ui s') = 0 + 1 /\
      progressUpdates (log s') = [] /\
      unlockUpdates (log s') = [].
Proof.
  eexists. split; [vm_compute; reflexivity|].
  split; [reflexivity|]. split; [reflexivity|].
  apply (late_result_third_mistake Sample.user 1%Z Sample.accepting
           StringSimilarity.compareTwoStrings
           Sample.restaurant Sample.fiveQuestions _
           (ui (start Sample.restaurant Sample.fiveQuestions))
           Sample.menu "bill" {| matched := "Bill"; matchScore := 1%Q |}).
  - apply (reachable_by_run _ _ [MicPress; Click "Bill"; Click "Menu"]).
    vm_compute; reflexivity.
  - reflexivity.
  - reflexivity.
  - reflexivity.
  - reflexivity.
  - vm_compute; reflexivity.
  - discriminate.
  - unfold mistakeLimit; cbn; lia.
  - cbn; lia.
Defined.











(** Five questions answered all correct: the score shown is 5 and the score
    written is 4. *)
Lemma all_correct_outcome_witness :
  exists s,
    runAccepting (correctAnswers Sample.fiveQuestions)
      (start Sample.restaurant Sample.fiveQuestions) = Some s /\
    outcome s = Some (Completed, 4) /\
    progressUpdates (log s) = [(Sample.user, 1%Z, completed, 4)] /\
    score (ui s) = 5 /\
    mistakes (ui s) = 0.
Proof.
  apply (all_correct_outcome Sample.user 1%Z Sample.accepting
           StringSimilarity.compareTwoStrings
           Sample.restaurant Sample.fiveQuestions).
  discriminate.
Defined.

(** The options of the sample question against the spoken text "menus". *)
Lemma findBestMatch_first_maximum_witness :
  let prepared := fun s => JsString.trim (JsString.toLowerCase s) in
  let sc := fun u o =>
    StringSimilarity.compareTwoStrings (prepared u) (prepared o) in
  (exists i o,
     nth_error (options Sample.menu) i = Some o /\
     (forall o', In o' (options Sample.menu) ->
        (sc "menus" o' <= sc "menus" o)%Q) /\
     (forall j o', j < i -> nth_error (options Sample.menu) j = Some o' ->
        (sc "menus" o' < sc "menus" o)%Q) /\
     findBestMatch StringSimilarity.compareTwoStrings "menus"
       (options Sample.menu) =
       if Qle_bool threshold (sc "menus" o)
       then Some {| matched := o; matchScore := sc "menus" o |}
       else None) /\
  (forall l r t,
     JsString.isBlank l = true -> JsString.isBlank r = true ->
     sameLetters "menus" t = true ->
     findBestMatch StringSimilarity.compareTwoStrings (l ++ t ++ r)%string
       (options Sample.menu) =
     findBestMatch StringSimilarity.compareTwoStrings "menus"
       (options Sample.menu)) /\
  (forall o l r t,
     JsString.isBlank l = true -> JsString.isBlank r = true ->
     sameLetters o t = true ->
     sc "menus" (l ++ t ++ r)%string = sc "menus" o).
Proof.
  apply (findBestMatch_first_maximum StringSimilarity.compareTwoStrings
           "menus" (options Sample.menu)).
  discriminate.
Defined.

(** C9, counterexample. A question saved with two of its option fields left
    empty: the empty utterance matches the empty option with score 1. *)
Lemma empty_utterance_counterexample :
  findBestMatch StringSimilarity.compareTwoStrings ""
    (options Sample.halfFilled)
  = Some {| matched := ""; matchScore := 1%Q |}.
Proof. vm_compute; reflexivity. Qed.

(** ** Examples *)

Example normalize_example : normalize "  May New " = "may new".
Proof. reflexivity. Qed.

Example compareTwoStrings_example :
  StringSimilarity.compareTwoStrings "healed" "sealed" = (8 # 10)%Q.
Proof. vm_compute; reflexivity. Qed.

Example findBestMatch_example :
  findBestMatch StringSimilarity.compareTwoStrings "menus"
    ["Menu"; "Bill"; "Receipt"; "Order"]
  = Some {| matched := "Menu"; matchScore := (6 # 7)%Q |}.
Proof. vm_compute; reflexivity. Qed.

Example findBestMatch_no_match :
  findBestMatch StringSimilarity.compareTwoStrings "may new"
    ["Menu"; "Bill"; "Receipt"; "Order"]
  = None.
Proof. vm_compute; reflexivity. Qed.

Example speech_answer_example :
  exists s,
    run Sample.user 1%Z Sample.accepting StringSimilarity.compareTwoStrings
      [Speech "may new"; Speech " MENUS "]
      (start Sample.restaurant Sample.oneQuestion) = Some s /\
    selectedOption (ui s) = Some "Menu" /\
    outcome s = Some (Completed, 0) /\
    score (ui s) = 1.
Proof. eexists. split; [vm_compute; reflexivity|]. repeat split. Qed.

(** The one question of a level answered correctly: the page shows a score
    of 1 and [endQuiz] writes 0. *)
Example all_correct_one_question_example :
  exists s,
    run Sample.user 1%Z Sample.accepting StringSimilarity.compareTwoStrings
      [Click "Menu"] (start Sample.restaurant Sample.oneQuestion) = Some s /\
    score (ui s) = 1 /\
    log s = [ShowToast ToastCorrect;
             ProgressUpdate Sample.user 1%Z completed 0;
             UnlockUpdate Sample.user 2%Z;
             ShowToast (ToastLevelCompleted 0 1);
             NavigateAfter "/levels" 2000].
Proof. eexists. split; [vm_compute; reflexivity|]. split; reflexivity. Qed.

(** Three questions, three wrong answers: the third answer is on the last
    question and the session fails, it does not complete. *)
Example three_questions_three_mistakes_example :
  exists s,
    run Sample.user 1%Z Sample.accepting StringSimilarity.compareTwoStrings
      [Click "Bill"; Click "Menu"; Click "Salt"]
      (start Sample.restaurant Sample.threeQuestions) = Some s /\
    outcome s = Some (FailedByMistakes, 0) /\
    unlockUpdates (log s) = [].
Proof. eexists. split; [vm_compute; reflexivity|]. split; reflexivity. Qed.

(** ** Further properties: normalization *)

Lemma lowerChar_idempotent : forall c,
  JsString.lowerChar (JsString.lowerChar c) = JsString.lowerChar c.
Proof.
  intros c; destruct c as [[] [] [] [] [] [] [] []]; reflexivity.
Qed.

Lemma toLowerCase_idempotent : forall s,
  JsString.toLowerCase (JsString.toLowerCase s) = JsString.toLowerCase s.
Proof.
  induction s as [|c s IH]; [reflexivity|].
  cbn. rewrite lowerChar_idempotent, IH; reflexivity.
Qed.

Lemma toLowerCase_trimStart : forall s,
  JsString.toLowerCase (JsString.trimStart s) =
  JsString.trimStart (JsString.toLowerCase s).
Proof.
  induction s as [|c s IH]; [reflexivity|].
  cbn [JsString.trimStart JsString.toLowerCase].
  rewrite isWhiteSpace_lowerChar.
  destruct (JsString.isWhiteSpace c); [exact IH|reflexivity].
Qed.

Lemma toLowerCase_trimEnd : forall s,
  JsString.toLowerCase (JsString.trimEnd s) =
  JsString.trimEnd (JsString.toLowerCase s).
Proof.
  induction s as [|c s IH]; [reflexivity|].
  cbn [JsString.trimEnd JsString.toLowerCase].
  rewrite <- IH, isWhiteSpace_lowerChar.
  destruct (JsString.trimEnd s) as [|c' s'];
    cbn [JsString.toLowerCase];
    [destruct (JsString.isWhiteSpace c)|]; reflexivity.
Qed.

Lemma trimStart_startsClean : forall s,
  startsClean (JsString.trimStart s) = true.
Proof.
  induction s as [|c s IH]; [reflexivity|].
  cbn [JsString.trimStart].
  destruct (JsString.isWhiteSpace c) eqn:Hc; [exact IH|].
  cbn. rewrite Hc; reflexivity.
Qed.

Lemma trimStart_of_clean : forall s,
  startsClean s = true -> JsString.trimStart s = s.
Proof.
  intros [|c s] H; [reflexivity|].
  cbn in *. destruct (JsString.isWhiteSpace c); [discriminate|reflexivity].
Qed.

Lemma trimEnd_startsClean : forall s,
  startsClean s = true -> startsClean (JsString.trimEnd s) = true.
Proof.
  intros [|c s] H; [reflexivity|].
  cbn [JsString.trimEnd]. cbn [startsClean] in H.
  destruct (JsString.trimEnd s);
    [destruct (JsString.isWhiteSpace c) eqn:Hc; [discriminate|]|];
    cbn [startsClean]; rewrite ?Hc; try exact H; reflexivity.
Qed.

Lemma trimEnd_idempotent : forall s,
  JsString.trimEnd (JsString.trimEnd s) = JsString.trimEnd s.
Proof.
  induction s as [|c s IH]; [reflexivity|].
  cbn [JsString.trimEnd].
  destruct (JsString.trimEnd s) as [|c' s'] eqn:Ht.
  - destruct (JsString.isWhiteSpace c) eqn:Hc; [reflexivity|].
    cbn. rewrite Hc; reflexivity.
  - remember (String c' s') as y eqn:Hy.
    cbn [JsString.trimEnd]. rewrite IH. subst y; reflexivity.
Qed.

Lemma trim_idempotent : forall s,
  JsString.trim (JsString.trim s) = JsString.trim s.
Proof.
  intros s; unfold JsString.trim.
  rewrite (trimStart_of_clean (JsString.trimEnd (JsString.trimStart s)))
    by (apply trimEnd_startsClean, trimStart_startsClean).
  apply trimEnd_idempotent.
Qed.

Lemma toLowerCase_trim : forall s,
  JsString.toLowerCase (JsString.trim s) =
  JsString.trim (JsString.toLowerCase s).
Proof.
  intros s; unfold JsString.trim.
  rewrite toLowerCase_trimEnd, toLowerCase_trimStart; reflexivity.
Qed.

Lemma normalize_toLowerCase : forall s,
  normalize (JsString.toLowerCase s) = normalize s.
Proof.
  intros s; unfold normalize. rewrite toLowerCase_idempotent; reflexivity.
Qed.

Lemma normalize_trim : forall s, normalize (JsString.trim s) = normalize s.
Proof.
  intros s; unfold normalize.
  rewrite toLowerCase_trim, trim_idempotent; reflexivity.
Qed.

Lemma normalize_idempotent : forall s, normalize (normalize s) = normalize s.
Proof.
  intros s. unfold normalize at 2.
  rewrite normalize_trim, normalize_toLowerCase; reflexivity.
Qed.

(** X3. The answer of [findBestMatch] does not depend on the case of the
    spoken text nor on the white space around it: lower-casing it, trimming
    it or both beforehand changes nothing; likewise the score of an option
    is that of its lower-cased and trimmed form. *)
Theorem findBestMatch_normalized_utterance :
  forall (compareTwoStrings : string -> string -> Q) spokenText opts,
  findBestMatch compareTwoStrings (JsString.toLowerCase spokenText) opts =
    findBestMatch compareTwoStrings spokenText opts /\
  findBestMatch compareTwoStrings (JsString.trim spokenText) opts =
    findBestMatch compareTwoStrings spokenText opts /\
  findBestMatch compareTwoStrings (normalize spokenText) opts =
    findBestMatch compareTwoStrings spokenText opts /\
  (forall o,
     similarity compareTwoStrings spokenText (normalize o) =
     similarity compareTwoStrings spokenText o).
Proof.
  intros cmp u opts. unfold findBestMatch, similarity.
  rewrite normalize_toLowerCase, normalize_trim, normalize_idempotent.
  repeat split. intros o. rewrite normalize_idempotent. reflexivity.
Qed.

(** ** Further properties: sign-up and level selection *)

Lemma existsb_insertLevel : forall f l ls,
  existsb f (insertLevel l ls) = f l || existsb f ls.
Proof.
  intros f l ls; induction ls as [|l' ls IH]; [reflexivity|].
  cbn [insertLevel].
  destruct (level_number l <=? level_number l')%Z; [reflexivity|].
  cbn [existsb]. rewrite IH.
  destruct (f l), (f l'); reflexivity.
Qed.

Lemma existsb_orderByLevelNumber : forall f ls,
  existsb f (orderByLevelNumber ls) = existsb f ls.
Proof.
  intros f ls; induction ls as [|l ls IH]; [reflexivity|].
  cbn [orderByLevelNumber existsb].
  rewrite existsb_insertLevel, IH; reflexivity.
Qed.

Lemma selectProgress_app : forall u t1 t2,
  selectProgress u (t1 ++ t2) = selectProgress u t1 ++ selectProgress u t2.
Proof. intros; unfold selectProgress; apply filter_app. Qed.

Lemma new_rows_lookup : forall u ls n,
  getLevelProgress
    (selectProgress u
       (map (fun l => mkProgressRow u (level_number l)
                        (if (level_number l =? 1)%Z then unlocked else locked)
                        0) ls)) n =
  if existsb (fun l => (level_number l =? n)%Z) ls
  then Some (mkProgressRow u n (if (n =? 1)%Z then unlocked else locked) 0)
  else None.
Proof.
  intros u ls n; induction ls as [|l ls IH]; [reflexivity|].
  cbn [map selectProgress filter row_user_id existsb].
  rewrite String.eqb_refl.
  cbn [getLevelProgress find row_level_number].
  destruct (level_number l =? n)%Z eqn:Hn.
  - apply Z.eqb_eq in Hn. rewrite Hn. reflexivity.
  - cbn [orb]. exact IH.
Qed.

(** X17. On the level selection page of a user who has just signed up, a
    click on a level card shows the "locked" message when the level existed
    at sign-up and is not level 1, and opens the quiz otherwise: level 1 is
    open, and so is every level that had no row inserted for the user
    because it was created after the sign-up. *)
Theorem new_user_level_click : forall new_id levels t lvl,
  selectProgress new_id t = [] ->
  handleLevelClick (selectProgress new_id (handle_new_user new_id levels t))
    lvl =
    if existsb (fun l => (level_number l =? level_number lvl)%Z) levels
       && negb (level_number lvl =? 1)%Z
    then ShowLockedToast
    else OpenQuiz (level_number lvl).
Proof.
  intros u levels t lvl Hnew.
  unfold handleLevelClick, handle_new_user.
  rewrite selectProgress_app, Hnew. cbn [app].
  rewrite new_rows_lookup, existsb_orderByLevelNumber.
  destruct (existsb (fun l => (level_number l =? level_number lvl)%Z) levels);
    [|reflexivity].
  cbn [row_status andb].
  destruct (level_number lvl =? 1)%Z; reflexivity.
Qed.

(** ** Concrete instances of the further properties *)

Lemma compareTwoStrings_equal : forall x,
  (StringSimilarity.compareTwoStrings x x == 1)%Q.
Proof.
  intros x; unfold StringSimilarity.compareTwoStrings.
  rewrite String.eqb_refl. reflexivity.
Qed.

(** "menus" against the options of the sample question: only "Menu" reaches
    0.7. *)
Lemma findBestMatch_unique_candidate_witness :
  findBestMatch StringSimilarity.compareTwoStrings "menus"
    (options Sample.menu) =
    Some {| matched := "Menu";
            matchScore :=
              similarity StringSimilarity.compareTwoStrings "menus" "Menu" |}.
Proof.
  apply (findBestMatch_unique_candidate StringSimilarity.compareTwoStrings
           "menus" (options Sample.menu) "Menu").
  - left; reflexivity.
  - unfold Qle; vm_compute; discriminate.
  - intros o' Hin Hne. cbn in Hin.
    destruct Hin as [<-|[<-|[<-|[<-|[]]]]]; try congruence;
      vm_compute; reflexivity.
Defined.

(** " MENU " against the options of the sample question. *)
Lemma exact_utterance_is_matched_witness :
  exists matchResult,
    findBestMatch StringSimilarity.compareTwoStrings " MENU "
      (options Sample.menu) = Some matchResult /\
    In (matched matchResult) (options Sample.menu) /\
    (1 <= matchScore matchResult)%Q.
Proof.
  apply (exact_utterance_is_matched StringSimilarity.compareTwoStrings
           " MENU " (options Sample.menu) "Menu").
  - exact compareTwoStrings_equal.
  - left; reflexivity.
  - reflexivity.
Defined.

Lemma reachableAtOnce_by_clicks : forall levelData qs answers s,
  runAccepting (map Click answers) (start levelData qs) = Some s ->
  reachableAtOnce Sample.user 1%Z Sample.accepting
    StringSimilarity.compareTwoStrings levelData qs s.
Proof.
  intros levelData qs answers s Hrun.
  eapply reachableAtOnce_clicks; [apply reachableAtOnce_start | exact Hrun].
Qed.

(** Five questions, answered wrong, wrong, correct. *)
Lemma session_accounting_witness :
  exists s,
    runAccepting [Click "Bill"; Click "Menu"; Click "Water"]
      (start Sample.restaurant Sample.fiveQuestions) = Some s /\
    score (ui s) + mistakes (ui s) =
      currentQuestionIndex (ui s) + (if isTerminal s then 1 else 0) /\
    mistakes (ui s) <= mistakeLimit /\
    score (ui s) <= List.length Sample.fiveQuestions /\
    (Sample.fiveQuestions <> [] ->
     currentQuestionIndex (ui s) < List.length Sample.fiveQuestions).
Proof.
  eexists. split; [vm_compute; reflexivity|].
  apply (session_accounting Sample.user 1%Z Sample.accepting
           StringSimilarity.compareTwoStrings
           Sample.restaurant Sample.fiveQuestions).
  apply (reachableAtOnce_by_clicks _ _ ["Bill"; "Menu"; "Water"]).
  vm_compute; reflexivity.
Defined.

(** Five questions answered all correct: 4 is written. *)
Lemma written_score_below_perfect_witness :
  exists s,
    runAccepting (correctAnswers Sample.fiveQuestions)
      (start Sample.restaurant Sample.fiveQuestions) = Some s /\
    exists b,
      isCorrect (ui s) = Some b /\
      score (ui s) = 4 + (if b then 1 else 0) /\
      4 + mistakes (ui s) + (if b then 1 else 0) =
        List.length Sample.fiveQuestions /\
      4 < List.length Sample.fiveQuestions.
Proof.
  eexists. split; [vm_compute; reflexivity|].
  apply (written_score_below_perfect Sample.user 1%Z Sample.accepting
           StringSimilarity.compareTwoStrings
           Sample.restaurant Sample.fiveQuestions).
  - apply (reachableAtOnce_by_clicks _ _
             (map correct_answer Sample.fiveQuestions)).
    vm_compute; reflexivity.
  - reflexivity.
Defined.

(** A speech result on a freshly started level. *)
Lemma step_never_raises_witness :
  exists s',
    stepAccepting (Speech "menus")
      (start Sample.restaurant Sample.oneQuestion) = Some s'.
Proof.
  apply (step_never_raises Sample.user 1%Z Sample.accepting
           StringSimilarity.compareTwoStrings
           Sample.restaurant Sample.oneQuestion).
  - discriminate.
  - apply reachable_start.
Defined.

(** Three clicks on a level of three questions. *)
Lemma level_ends_within_its_questions_witness :
  exists s,
    runAccepting (map Click ["Bill"; "Bill"; "Water"])
      (start Sample.restaurant Sample.threeQuestions) = Some s /\
    isTerminal s = true.
Proof.
  apply (level_ends_within_its_questions Sample.user 1%Z Sample.accepting
           StringSimilarity.compareTwoStrings
           Sample.restaurant Sample.threeQuestions ["Bill"; "Bill"; "Water"]).
  - discriminate.
  - reflexivity.
Defined.

(** " MENUS " spoken on the first question, against a click on "Menu". *)
Lemma speech_scored_like_click_witness :
  let s := start Sample.restaurant Sample.fiveQuestions in
  exists s1 s2,
    stepAccepting (Speech " MENUS ") s = Some s1 /\
    stepAccepting (Click "Menu") s = Some s2 /\
    setFeedbackText (feedbackText (ui s2)) s1 = s2.
Proof.
  intros s.
  apply (speech_scored_like_click Sample.user 1%Z Sample.accepting
           StringSimilarity.compareTwoStrings s " MENUS " Sample.menu
           {| matched := "Menu"; matchScore := (6 # 7)%Q |}).
  - reflexivity.
  - reflexivity.
  - reflexivity.
  - vm_compute; reflexivity.
Defined.

(** Two spoken texts that match no option of the first question. *)
Lemma unrecognized_speech_changes_nothing_witness :
  let s := start Sample.restaurant Sample.fiveQuestions in
  exists s',
    runAccepting (map Speech ["may new"; "bill please"]) s = Some s' /\
    setFeedbackText (feedbackText (ui s')) s = s' /\
    (["may new"; "bill please"] <> [] -> listening s = None ->
     feedbackText (ui s') = UnrecognizedAnswer).
Proof.
  intros s.
  apply (unrecognized_speech_changes_nothing Sample.user 1%Z Sample.accepting
           StringSimilarity.compareTwoStrings Sample.menu
           ["may new"; "bill please"] s).
  - reflexivity.
  - reflexivity.
  - intros t Hin. cbn in Hin.
    destruct Hin as [<-|[<-|[]]]; vm_compute; reflexivity.
Defined.


(** One question answered correctly, stored in the sample table. *)
Lemma persist_session_witness :
  exists s',
    stepAccepting (Click "Menu")
      (start Sample.restaurant Sample.oneQuestion) = Some s' /\
    persist Sample.accepting Sample.unlockAccepting
      (log (start Sample.restaurant Sample.oneQuestion)) SampleProgress.table
      = SampleProgress.table /\
    persist Sample.accepting Sample.unlockAccepting (log s')
      SampleProgress.table =
      [ mkProgressRow "user-1" 1 completed 0;
        mkProgressRow "user-1" 2 unlocked 3;
        mkProgressRow "user-2" 1 unlocked 0;
        mkProgressRow "user-1" 3 locked 0 ].
Proof.
  eexists. split; [vm_compute; reflexivity|].
  match goal with
  | |- _ /\ persist _ _ (log ?s') _ = _ =>
      refine (persist_session Sample.user 1%Z Sample.accepting
                Sample.unlockAccepting StringSimilarity.compareTwoStrings
                Sample.restaurant Sample.oneQuestion
                (start Sample.restaurant Sample.oneQuestion) (Click "Menu")
                s' SampleProgress.table _ _ _)
  end.
  - apply reachable_start.
  - reflexivity.
  - vm_compute; reflexivity.
Defined.

Lemma completed_session_rows_witness :
  exists s',
    stepAccepting (Click "Menu")
      (start Sample.restaurant Sample.oneQuestion) = Some s' /\
    (forall m,
       getLevelProgress
         (selectProgress Sample.user
            (persist Sample.accepting Sample.unlockAccepting (log s')
               SampleProgress.table)) m =
         if (m =? 1)%Z then
           option_map (fun _ => mkProgressRow Sample.user 1 completed 0)
             (getLevelProgress
                (selectProgress Sample.user SampleProgress.table) m)
         else if (m =? 1 + 1)%Z then
           option_map
             (fun p => mkProgressRow Sample.user (1 + 1)%Z unlocked
                         (row_high_score p))
             (getLevelProgress
                (selectProgress Sample.user SampleProgress.table) m)
         else getLevelProgress
                (selectProgress Sample.user SampleProgress.table) m) /\
    (forall u', u' <> Sample.user ->
       selectProgress u'
         (persist Sample.accepting Sample.unlockAccepting (log s')
            SampleProgress.table) =
       selectProgress u' SampleProgress.table).
Proof.
  eexists. split; [vm_compute; reflexivity|].
  apply (completed_session_rows Sample.user 1%Z Sample.accepting
           Sample.unlockAccepting StringSimilarity.compareTwoStrings
           Sample.restaurant Sample.oneQuestion
           (start Sample.restaurant Sample.oneQuestion) (Click "Menu")
           _ 0 SampleProgress.table).
  - apply reachable_start.
  - reflexivity.
  - vm_compute; reflexivity.
  - reflexivity.
  - reflexivity.
  - reflexivity.
Defined.

Lemma completed_level_opens_next_witness :
  exists s',
    stepAccepting (Click "Menu")
      (start Sample.restaurant Sample.oneQuestion) = Some s' /\
    handleLevelClick
      (selectProgress Sample.user
         (persist Sample.accepting Sample.unlockAccepting (log s')
            SampleProgress.table))
      SampleProgress.airport = OpenQuiz (1 + 1)%Z.
Proof.
  eexists. split; [vm_compute; reflexivity|].
  apply (completed_level_opens_next Sample.user 1%Z Sample.accepting
           Sample.unlockAccepting StringSimilarity.compareTwoStrings
           Sample.restaurant Sample.oneQuestion
           (start Sample.restaurant Sample.oneQuestion) (Click "Menu")
           _ 0 SampleProgress.table).
  - apply reachable_start.
  - reflexivity.
  - vm_compute; reflexivity.
  - reflexivity.
  - reflexivity.
  - reflexivity.
  - reflexivity.
Defined.

(** Three wrong answers on a level that the table holds as completed with a
    high score of 5. *)
Lemma failed_session_rows_witness :
  exists s s',
    runAccepting [Click "Bill"; Click "Menu"]
      (start Sample.restaurant Sample.threeQuestions) = Some s /\
    stepAccepting (Click "Salt") s = Some s' /\
    (forall m,
       getLevelProgress
         (selectProgress Sample.user
            (persist Sample.accepting Sample.unlockAccepting (log s')
               SampleProgress.table)) m =
         if (m =? 1)%Z then
           option_map (fun _ => mkProgressRow Sample.user 1 unlocked 0)
             (getLevelProgress
                (selectProgress Sample.user SampleProgress.table) m)
         else getLevelProgress
                (selectProgress Sample.user SampleProgress.table) m) /\
    (forall u', u' <> Sample.user ->
       selectProgress u'
         (persist Sample.accepting Sample.unlockAccepting (log s')
            SampleProgress.table) =
       selectProgress u' SampleProgress.table).
Proof.
  eexists. eexists. split; [vm_compute; reflexivity|].
  split; [vm_compute; reflexivity|].
  match goal with
  | |- context [persist _ _ (log ?s') _] =>
      refine (failed_session_rows Sample.user 1%Z Sample.accepting
                Sample.unlockAccepting StringSimilarity.compareTwoStrings
                Sample.restaurant Sample.threeQuestions _ (Click "Salt")
                s' 0 SampleProgress.table _ _ _ _ _)
  end.
  - apply (reachable_by_run _ _ [Click "Bill"; Click "Menu"]).
    vm_compute; reflexivity.
  - reflexivity.
  - vm_compute; reflexivity.
  - reflexivity.
  - reflexivity.
Defined.

(** A third user signs up when levels 1, 2 and 3 exist: level 2 is locked. *)
Lemma new_user_level_click_witness :
  handleLevelClick
    (selectProgress "user-3"
       (handle_new_user "user-3" SampleProgress.levels SampleProgress.table))
    SampleProgress.airport = ShowLockedToast.
Proof.
  apply (new_user_level_click "user-3" SampleProgress.levels
           SampleProgress.table SampleProgress.airport).
  reflexivity.
Defined.

(** The same user on a level created after the sign-up, and on level 1. *)
Example new_user_later_level_example :
  handleLevelClick
    (selectProgress "user-3"
       (handle_new_user "user-3" SampleProgress.levels SampleProgress.table))
    SampleProgress.office = OpenQuiz 9 /\
  handleLevelClick
    (selectProgress "user-3"
       (handle_new_user "user-3" SampleProgress.levels SampleProgress.table))
    Sample.restaurant = OpenQuiz 1.
Proof. split; reflexivity. Qed.




(** ** Examples on the characters beyond ASCII *)

(** The no-break space U+00A0 is trimmed, and E with acute accent U+00C9 is
    lower-cased to U+00E9. *)
Example trim_no_break_space_example :
  JsString.trim (String "160"%char "ok") = "ok".
Proof. reflexivity. Qed.

Example toLowerCase_latin1_example :
  JsString.toLowerCase (String "201"%char "T") = String "233"%char "t".
Proof. reflexivity. Qed.

(** The multiplication sign U+00D7 and the sharp s U+00DF are left as they
    are. *)
Example toLowerCase_unchanged_example :
  JsString.toLowerCase (String "215"%char (String "223"%char "")) =
  String "215"%char (String "223"%char "").
Proof. reflexivity. Qed.

(** An option made of a no-break space is blank: the empty utterance
    matches it. *)
Example empty_utterance_no_break_space_example :
  findBestMatch StringSimilarity.compareTwoStrings ""
    ["Yes"; String "160"%char ""]
  = Some {| matched := String "160"%char ""; matchScore := 1%Q |}.
Proof. vm_compute; reflexivity. Qed.

(** A result delivered while the learner has not touched the page is judged
    in the render on display, like the click. *)
Example result_after_press_example :
  exists s,
    runAccepting [MicPress; Result "menus"; RecognitionEnd]
      (start Sample.restaurant Sample.oneQuestion) = Some s /\
    runAccepting [Speech "menus"]
      (start Sample.restaurant Sample.oneQuestion) = Some s /\
    outcome s = Some (Completed, 0) /\
    listening s = None.
Proof.
  eexists. split; [vm_compute; reflexivity|].
  split; [vm_compute; reflexivity|]. split; reflexivity.
Qed.
